(** * AgentTask: the escrow ledger of [contracts/AgentTask.sol]

    A shallow embedding of the Solidity contract [AgentTask] and the
    properties of its task life cycle (create, submit, approve).

    - Unsigned 256-bit integers and 160-bit addresses are binary naturals
      ([N]); Solidity 0.8 arithmetic is checked, so the only arithmetic of
      the contract, [nextTaskId++], reverts instead of wrapping.
    - The two storage mappings are finite maps ([gmap]) read with Solidity's
      default value for a key never written.
    - A function body is a computation in a small state-and-revert monad over
      the [World] (contract storage, account balances, event log).  A revert
      carries no state: the message call [call] restores the world it
      started from.
    - [transfer] forwards the 2300 gas stipend only, which leaves the
      recipient no means to call back into the contract: it is one step that
      moves the amount or reverts.
    - Callers are accounts: [msg.sender] is neither [address(0)] nor the
      contract itself, and a caller owns the value it sends.  This is a
      premise of the transactions that make up a reachable world
      ([well_formed]), not of the functions. *)

From Stdlib Require Import NArith String List Sorted Lia.
From stdpp Require Import base numbers option list strings.
From stdpp Require Import gmap fin_maps sorting.

Local Open Scope string_scope.
Local Open Scope list_scope.
Local Open Scope N_scope.

(** ** Value types *)

Abbreviation uint256 := N.
Abbreviation address := N.

Definition MAX_UINT256 : N := 2 ^ 256 - 1.

(** [address(0)], the sentinel of the contract for "no agent". *)
Definition address0 : address := 0.

(** ** struct Task *)

Record Task := mkTask {
  id : uint256;
  employer : address;
  agent : address;
  description : string;
  reward : uint256;
  submissionUrl : string;
  isSubmitted : bool;
  isApproved : bool;
  isCompleted : bool
}.

(** The value Solidity reads from a mapping slot that was never written. *)
Definition Task_default : Task :=
  mkTask 0 address0 address0 "" 0 "" false false false.

(** Assignments to a single member of a [Task storage] reference. *)
Definition set_agent (a : address) (t : Task) : Task :=
  mkTask (id t) (employer t) a (description t) (reward t)
         (submissionUrl t) (isSubmitted t) (isApproved t) (isCompleted t).

Definition set_submissionUrl (u : string) (t : Task) : Task :=
  mkTask (id t) (employer t) (agent t) (description t) (reward t)
         u (isSubmitted t) (isApproved t) (isCompleted t).

Definition set_isSubmitted (b : bool) (t : Task) : Task :=
  mkTask (id t) (employer t) (agent t) (description t) (reward t)
         (submissionUrl t) b (isApproved t) (isCompleted t).

Definition set_isApproved (b : bool) (t : Task) : Task :=
  mkTask (id t) (employer t) (agent t) (description t) (reward t)
         (submissionUrl t) (isSubmitted t) b (isCompleted t).

Definition set_isCompleted (b : bool) (t : Task) : Task :=
  mkTask (id t) (employer t) (agent t) (description t) (reward t)
         (submissionUrl t) (isSubmitted t) (isApproved t) b.

(** ** Events *)

Inductive Event :=
| TaskCreated (taskId : uint256) (employer : address) (reward : uint256)
              (description : string)
| TaskSubmitted (taskId : uint256) (agent : address) (submissionUrl : string)
| TaskApproved (taskId : uint256) (employer agent : address) (reward : uint256).

(** ** Errors

    A failed [require] reverts with its reason string, [nextTaskId++] with
    a panic when it would overflow, [transfer] with no data.  The
    specification names the nine [require] statements; the names stand for
    the reason strings of the source. *)

Inductive Error :=
| Reason (s : string)
| Panic
| TransferFailed.

Definition InvalidReward : Error := Reason "Reward must be greater than 0".
Definition InvalidDescription : Error := Reason "Description cannot be empty".
Definition TaskNotFound : Error := Reason "Task does not exist".
Definition AlreadyClaimed : Error := Reason "Task already taken".
Definition EmptySubmission : Error := Reason "Submission URL cannot be empty".
Definition Unauthorized : Error := Reason "Only employer can approve".
Definition NotSubmitted : Error := Reason "Task not submitted yet".
Definition AlreadyApproved : Error := Reason "Task already approved".
Definition NoAgent : Error := Reason "No agent assigned".

(** ** The world: contract storage, balances, log *)

Record World := mkWorld {
  nextTaskId : uint256;
  tasks : gmap N Task;
  employerTasks : gmap N (list N);
  balances : gmap N N;
  events : list Event
}.

(** [tasks[taskId]] and [employerTasks[a]] as Solidity reads them. *)
Definition task_at (taskId : uint256) (w : World) : Task :=
  default Task_default (tasks w !! taskId).

Definition employerTasks_at (a : address) (w : World) : list N :=
  default [] (employerTasks w !! a).

Definition balance (a : address) (w : World) : N :=
  default 0 (balances w !! a).

Definition with_nextTaskId (n : N) (w : World) : World :=
  mkWorld n (tasks w) (employerTasks w) (balances w) (events w).

Definition with_tasks (m : gmap N Task) (w : World) : World :=
  mkWorld (nextTaskId w) m (employerTasks w) (balances w) (events w).

Definition with_employerTasks (m : gmap N (list N)) (w : World) : World :=
  mkWorld (nextTaskId w) (tasks w) m (balances w) (events w).

Definition with_balances (m : gmap N N) (w : World) : World :=
  mkWorld (nextTaskId w) (tasks w) (employerTasks w) m (events w).

Definition with_events (l : list Event) (w : World) : World :=
  mkWorld (nextTaskId w) (tasks w) (employerTasks w) (balances w) l.

Definition credit (a : address) (v : N) (w : World) : World :=
  with_balances (<[a := balance a w + v]> (balances w)) w.

Definition debit (a : address) (v : N) (w : World) : World :=
  with_balances (<[a := balance a w - v]> (balances w)) w.

(** ** The contract monad *)

Inductive Result (A : Type) :=
| Ok (a : A) (w : World)
| Revert (e : Error).
Arguments Ok {A} a w.
Arguments Revert {A} e.

Definition Contract (A : Type) : Type := World -> Result A.

Definition ret {A} (a : A) : Contract A := fun w => Ok a w.

Definition bind {A B} (c : Contract A) (k : A -> Contract B) : Contract B :=
  fun w => match c w with
           | Ok a w' => k a w'
           | Revert e => Revert e
           end.

Declare Scope contract_scope.
Delimit Scope contract_scope with contract.
Notation "c1 ;; c2" := (bind c1 (fun _ => c2))
  (at level 100, c2 at level 200, right associativity) : contract_scope.
Local Open Scope contract_scope.

(** [require(cond, reason)]: the condition is an expression over the
    current storage. *)
Definition require (cond : World -> bool) (reason : string) : Contract unit :=
  fun w => if cond w then Ok tt w else Revert (Reason reason).

(** A storage write, the new value being an expression over the current
    storage. *)
Definition update (f : World -> World) : Contract unit :=
  fun w => Ok tt (f w).

Definition emit (ev : World -> Event) : Contract unit :=
  update (fun w => with_events (events w ++ [ev w]) w).

(** [tasks[taskId] = t] *)
Definition store_task (taskId : World -> uint256) (t : World -> Task)
  : Contract unit :=
  update (fun w => with_tasks (<[taskId w := t w]> (tasks w)) w).

(** [task.member = v] through a storage reference [task = tasks[taskId]]. *)
Definition assign (taskId : uint256) (f : Task -> Task) : Contract unit :=
  update (fun w => with_tasks (<[taskId := f (task_at taskId w)]> (tasks w)) w).

(** [employerTasks[a].push(x)] *)
Definition push (a : address) (x : World -> uint256) : Contract unit :=
  update (fun w =>
    with_employerTasks
      (<[a := employerTasks_at a w ++ [x w]]> (employerTasks w)) w).

(** [nextTaskId++] under checked arithmetic. *)
Definition increment_nextTaskId : Contract unit :=
  fun w => if nextTaskId w <? MAX_UINT256
           then Ok tt (with_nextTaskId (nextTaskId w + 1) w)
           else Revert Panic.

(** [msg.sender] and [msg.value] of a message call. *)
Record Msg := mkMsg { sender : address; value : uint256 }.

(** Where the contract lives: the address it is deployed at, and which
    accounts accept a plain value transfer under the 2300 gas stipend (an
    externally owned account always does; a contract account does when it
    has a payable receive path that runs within the stipend). *)
Class Chain := {
  this : address;
  accepts : address -> bool
}.

Section AgentTask.

Context {chain : Chain}.

(** [payable(to).transfer(amount)]: reverts when the contract holds less
    than [amount] or the recipient does not accept it. *)
Definition transfer (to : World -> address) (amount : World -> uint256)
  : Contract unit :=
  fun w => if (amount w <=? balance this w) && accepts (to w)
           then Ok tt (credit (to w) (amount w) (debit this (amount w) w))
           else Revert TransferFailed.

(** ** The functions of the contract *)

Definition createTask (msg : Msg) (description : string) : Contract unit :=
  require (fun _ => 0 <? value msg) "Reward must be greater than 0" ;;
  require (fun _ => (0 <? String.length description)%nat)
          "Description cannot be empty" ;;
  let newTask w :=
    mkTask (nextTaskId w) (sender msg) address0 description (value msg)
           "" false false false in
  store_task nextTaskId newTask ;;
  push (sender msg) nextTaskId ;;
  emit (fun w =>
          TaskCreated (nextTaskId w) (sender msg) (value msg) description) ;;
  increment_nextTaskId.

Definition submitTask (msg : Msg) (taskId : uint256) (submissionUrl : string)
  : Contract unit :=
  let task := task_at taskId in
  require (fun w => taskId <? nextTaskId w) "Task does not exist" ;;
  require (fun w => agent (task w) =? address0) "Task already taken" ;;
  require (fun _ => (0 <? String.length submissionUrl)%nat)
          "Submission URL cannot be empty" ;;
  assign taskId (set_agent (sender msg)) ;;
  assign taskId (set_submissionUrl submissionUrl) ;;
  assign taskId (set_isSubmitted true) ;;
  emit (fun _ => TaskSubmitted taskId (sender msg) submissionUrl).

Definition approveTask (msg : Msg) (taskId : uint256) : Contract unit :=
  let task := task_at taskId in
  require (fun w => taskId <? nextTaskId w) "Task does not exist" ;;
  require (fun w => sender msg =? employer (task w))
          "Only employer can approve" ;;
  require (fun w => isSubmitted (task w)) "Task not submitted yet" ;;
  require (fun w => negb (isApproved (task w))) "Task already approved" ;;
  require (fun w => negb (agent (task w) =? address0)) "No agent assigned" ;;
  assign taskId (set_isApproved true) ;;
  assign taskId (set_isCompleted true) ;;
  transfer (fun w => agent (task w)) (fun w => reward (task w)) ;;
  emit (fun w =>
          TaskApproved taskId (sender msg) (agent (task w)) (reward (task w))).

Definition getTask (taskId : uint256) : Contract Task :=
  bind (require (fun w => taskId <? nextTaskId w) "Task does not exist")
       (fun _ w => Ok (task_at taskId w) w).

Definition getEmployerTasks (employer : address) : Contract (list uint256) :=
  fun w => Ok (employerTasks_at employer w) w.

Definition getTotalTasks : Contract uint256 :=
  fun w => Ok (nextTaskId w) w.

(** The getter Solidity generates for [mapping(uint256 => Task) public
    tasks]: no range check, the members of the slot as a tuple. *)
Definition tasks_getter (taskId : uint256)
  : Contract (uint256 * address * address * string * uint256 * string
              * bool * bool * bool) :=
  fun w => let t := task_at taskId w in
           Ok (id t, employer t, agent t, description t, reward t,
               submissionUrl t, isSubmitted t, isApproved t, isCompleted t) w.

(** ** Message calls

    A call first moves [msg.value] from the caller to the contract, then
    runs the body; when the body reverts every effect is discarded,
    including the value that came with the call. *)

Inductive Outcome := Success | Failure (e : Error).

Definition pay (from to : address) (v : uint256) (w : World) : World :=
  if v =? 0 then w else credit to v (debit from v w).

Definition call (msg : Msg) (f : Msg -> Contract unit) (w : World)
  : Outcome * World :=
  match f msg (pay (sender msg) this (value msg) w) with
  | Ok _ w' => (Success, w')
  | Revert e => (Failure e, w)
  end.

(** A read-only call: the value returned, or the error. *)
Definition staticcall {A} (q : Contract A) (w : World) : A + Error :=
  match q w with
  | Ok a _ => inl a
  | Revert e => inr e
  end.

(** The three transactions.  [submitTask] and [approveTask] are not
    payable: a call to them carries no value. *)
Inductive Op :=
| CreateTask (from : address) (value : uint256) (description : string)
| SubmitTask (from : address) (taskId : uint256) (submissionUrl : string)
| ApproveTask (from : address) (taskId : uint256).

Definition perform (op : Op) : World -> Outcome * World :=
  match op with
  | CreateTask a v d => call (mkMsg a v) (fun msg => createTask msg d)
  | SubmitTask a i u => call (mkMsg a 0) (fun msg => submitTask msg i u)
  | ApproveTask a i => call (mkMsg a 0) (fun msg => approveTask msg i)
  end.

Definition op_sender (op : Op) : address :=
  match op with
  | CreateTask a _ _ | SubmitTask a _ _ | ApproveTask a _ => a
  end.

Definition op_value (op : Op) : uint256 :=
  match op with
  | CreateTask _ v _ => v
  | _ => 0
  end.

(** What the chain guarantees of a call that reaches the contract: the
    caller is an account other than [address(0)] (nobody can sign for it)
    and other than the contract itself (which makes no calls), and it owns
    the value it sends. *)
Definition well_formed (op : Op) (w : World) : bool :=
  negb (op_sender op =? address0) && negb (op_sender op =? this)
  && (op_value op <=? balance (op_sender op) w).

Inductive step : World -> World -> Prop :=
| step_perform op w :
    well_formed op w = true -> step w (perform op w).2.

(** Worlds after any number of transactions. *)
Definition steps : World -> World -> Prop := rtc step.

(** The world right after deployment: empty storage, any balances. *)
Definition deployed (b : gmap N N) : World := mkWorld 0 ∅ ∅ b [].

Definition reachable (w : World) : Prop := exists b, steps (deployed b) w.

(** Running a list of transactions, for concrete scenarios. *)
Fixpoint run (ops : list Op) (w : World) : World :=
  match ops with
  | [] => w
  | op :: ops' => run ops' (perform op w).2
  end.

Fixpoint well_formed_trace (ops : list Op) (w : World) : bool :=
  match ops with
  | [] => true
  | op :: ops' => well_formed op w && well_formed_trace ops' (perform op w).2
  end.

(** ** Specification vocabulary *)

(** The ids assigned so far, in creation order: [0; 1; ...; n - 1]. *)
Definition ids (n : N) : list N := map N.of_nat (seq 0 (N.to_nat n)).

(** What holds of the record of a created task. *)
Record task_inv (i : N) (t : Task) : Prop := mk_task_inv {
  inv_id : id t = i;
  inv_employer : employer t <> address0 /\ employer t <> this;
  inv_reward : 0 < reward t;
  inv_description : description t <> "";
  inv_agent : agent t = address0 <-> isSubmitted t = false;
  inv_agent_this : agent t <> address0 -> agent t <> this;
  inv_url : submissionUrl t = "" <-> isSubmitted t = false;
  inv_approved : isApproved t = true -> isSubmitted t = true;
  inv_completed : isCompleted t = isApproved t
}.

Record world_inv (w : World) : Prop := mk_world_inv {
  inv_bound : nextTaskId w <= MAX_UINT256;
  inv_fresh : forall i, nextTaskId w <= i -> tasks w !! i = None;
  inv_tasks : forall i, i < nextTaskId w ->
              exists t, tasks w !! i = Some t /\ task_inv i t;
  inv_index : forall a,
      employerTasks_at a w =
      List.filter (fun i => employer (task_at i w) =? a) (ids (nextTaskId w))
}.

(** What the contract still owes: the rewards of the tasks not yet
    approved.  The ledger is solvent when it holds at least that much. *)
Definition total (f : N -> N) (l : list N) : N :=
  foldr (fun i s => f i + s) 0 l.

Definition owed_at (w : World) (i : N) : N :=
  if isApproved (task_at i w) then 0 else reward (task_at i w).

Definition owed (w : World) : N := total (owed_at w) (ids (nextTaskId w)).

Definition solvent (w : World) : Prop := owed w <= balance this w.

(** How the record of one task may differ between a world and a later
    one: the members written at creation are fixed, the members written at
    submission are fixed once the agent is set, the flags only rise. *)
Record task_evolves (t t' : Task) : Prop := mk_task_evolves {
  ev_id : id t' = id t;
  ev_employer : employer t' = employer t;
  ev_description : description t' = description t;
  ev_reward : reward t' = reward t;
  ev_agent : agent t <> address0 ->
             agent t' = agent t /\ submissionUrl t' = submissionUrl t;
  ev_submitted : isSubmitted t = true -> isSubmitted t' = true;
  ev_approved : isApproved t = true -> isApproved t' = true;
  ev_completed : isCompleted t = true -> isCompleted t' = true
}.

End AgentTask.

(** * Replaying the event log

    What a listener that saw every event can rebuild: the effect of each
    event on a copy of the [tasks] mapping. *)

Definition replay_event (m : gmap N Task) (ev : Event) : gmap N Task :=
  match ev with
  | TaskCreated i e r d =>
      <[i := mkTask i e address0 d r "" false false false]> m
  | TaskSubmitted i a u =>
      let t := default Task_default (m !! i) in
      <[i := set_isSubmitted true (set_submissionUrl u (set_agent a t))]> m
  | TaskApproved i _ _ _ =>
      let t := default Task_default (m !! i) in
      <[i := set_isCompleted true (set_isApproved true t)]> m
  end.

Definition replay (evs : list Event) : gmap N Task :=
  fold_left replay_event evs ∅.

(** * The page ([app/page.tsx])

    The page holds an address as the hex string the client library returns
    and compares two of them after [toLowerCase()], or one with the all-zero
    string; such strings are equal exactly when the addresses are, so here
    too an address is its number.  The reads of [fetchAllTasks] are separate
    calls to the node: the count is read in one world, each record in a
    world of its own. *)

Module Page.

(** The part of the component's state the functions below use; [connected]
    is [address] of [useAccount]. *)
Record State := mkState {
  submissionUrl : string;
  selectedTaskId : option N;
  tasks : list Task;
  connected : option N
}.

(** [Number(taskCountBigInt)] is exact up to 2^53; beyond, the conversion
    rounds and the loop counter no longer advances by one: left out. *)
Definition MAX_SAFE : N := 2 ^ 53.

Inductive Refresh :=
| Kept                    (* returned before [setTasks]: the list stays *)
| Shown (l : list Task)   (* [setTasks(fetchedTasks)] *)
| Inexact.                (* count above 2^53 *)

(** The object built from the array [tasks(i)] returns. *)
Definition task_of_array
    (taskArray : N * N * N * string * N * string * bool * bool * bool)
  : Task :=
  let '(a0, a1, a2, a3, a4, a5, a6, a7, a8) := taskArray in
  mkTask a0 a1 a2 a3 a4 a5 a6 a7 a8.

Definition fetchAllTasks (now : World) (then_ : N -> World) : Refresh :=
  match staticcall getTotalTasks now with
  | inr _ => Kept
  | inl taskCountBigInt =>
      if taskCountBigInt =? 0 then Kept
      else if MAX_SAFE <? taskCountBigInt then Inexact
      else
        Shown (omap (fun i =>
                       match staticcall (tasks_getter i) (then_ i) with
                       | inl taskData => Some (task_of_array taskData)
                       | inr _ => None
                       end)
                    (ids taskCountBigInt))
  end.

(** [t.employer?.toLowerCase() === address?.toLowerCase()] *)
Definition is_mine (address : option N) (t : Task) : bool :=
  match address with
  | Some a => employer t =? a
  | None => false
  end.


(** The options of the agent's task selector. *)
Definition selectable (st : State) : list Task :=
  List.filter (fun t => (agent t =? address0) && negb (isCompleted t))
              (tasks st).

(** Whether the approve button is drawn on a card of "my tasks". *)
Definition approve_button (st : State) (task : Task) : bool :=
  isSubmitted task && negb (isApproved task) && is_mine (connected st) task.

Definition getTaskStatus (task : Task) : string :=
  if isCompleted task then "已完成"
  else if isApproved task then "已验收"
  else if isSubmitted task then "待验收"
  else if negb (agent task =? address0) then "进行中"
  else "开放".

Record Styles := mkStyles { bg : string; text : string; border : string }.

Definition getStatusStyles (task : Task) : Styles :=
  if isCompleted task
  then mkStyles "bg-amber-700" "text-amber-100" "border-amber-900"
  else if isApproved task
  then mkStyles "bg-green-600" "text-green-100" "border-green-800"
  else if isSubmitted task
  then mkStyles "bg-yellow-600" "text-yellow-100" "border-yellow-800"
  else if negb (agent task =? address0)
  then mkStyles "bg-blue-600" "text-blue-100" "border-blue-800"
  else mkStyles "bg-emerald-500" "text-emerald-100" "border-emerald-700".

(** [handleSubmitTask]: the transaction handed to the wallet, if any, and
    the state afterwards. *)
Definition handleSubmitTask (st : State) : option Op * State :=
  match selectedTaskId st with
  | None => (None, st)
  | Some taskId =>
      if (String.length (submissionUrl st) =? 0)%nat then (None, st)
      else
        (match connected st with
         | Some a => Some (SubmitTask a taskId (submissionUrl st))
         | None => None
         end,
         mkState "" None (tasks st) (connected st))
  end.

(** [handleApproveTask(taskId)] *)
Definition handleApproveTask (st : State) (taskId : N) : option Op :=
  match connected st with
  | Some a => Some (ApproveTask a taskId)
  | None => None
  end.

End Page.

(** What the loop of [fetchAllTasks] collects when no read fails: the
    record of each id below the count, each in the world of its read. *)
Definition fetched (now : World) (then_ : N -> World) : list Task :=
  map (fun i => task_at i (then_ i)) (ids (nextTaskId now)).

(** * Scenarios

    A contract deployed at address 1000 on a chain where every account
    accepts transfers, and three accounts (1, 2, 3) with funds. *)

Definition testnet : Chain := {| this := 1000; accepts := fun _ => true |}.

Definition genesis : World := deployed {[ 1 := 500; 2 := 7; 3 := 50 ]}.

(** Account 1 created task 0 with reward 100. *)
Definition created : World :=
  run (chain := testnet) [CreateTask 1 100 "X"] genesis.

(** ... and account 2 submitted to it. *)
Definition submitted : World :=
  run (chain := testnet) [SubmitTask 2 0 "http://a"] created.

(** ... and account 1 approved it. *)
Definition approved : World :=
  run (chain := testnet) [ApproveTask 1 0] submitted.

(** Some transactions after the submission: account 3 created task 1,
    account 1 approved task 0. *)
Definition later : World :=
  run (chain := testnet) [CreateTask 3 5 "Y"; ApproveTask 1 0] submitted.

Definition created_again : World :=
  run (chain := testnet) [CreateTask 3 5 "Y"] submitted.

(** Accounts 1, 3 and 1 again create tasks 0, 1 and 2. *)
Definition busy : World :=
  run (chain := testnet)
      [CreateTask 1 100 "X"; CreateTask 3 5 "Y"; CreateTask 1 20 "Z"] genesis.

(** A world no transaction produces: task 0 marked submitted with no
    agent.  Only there does [approveTask] reach its last check. *)
Definition orphan : World :=
  mkWorld 1 {[ 0 := mkTask 0 1 address0 "X" 100 "" true false false ]}
          ∅ ∅ [].

(** The same chain, except that account 2 refuses payments. *)
Definition picky : Chain :=
  {| this := 1000; accepts := fun a => negb (a =? 2) |}.

(** A ledger whose counter has reached the last value of a [uint256]. *)
Definition full : World := mkWorld MAX_UINT256 ∅ ∅ {[ 1 := 500 ]} [].

(** The page of account 2, its list fetched in [later], with task 1 picked
    and a url typed. *)
Definition agent_page : Page.State :=
  Page.mkState "http://b" (Some 1) (fetched later (fun _ => later)) (Some 2).

(** The page of account 1, its list fetched in [submitted]. *)
Definition employer_page : Page.State :=
  Page.mkState "" None (fetched submitted (fun _ => submitted)) (Some 1).


(** * Properties *)

Section Properties.

Context {chain : Chain}.

(** ** Stepping through a body *)

Lemma bind_Ok {A B} (c : Contract A) (k : A -> Contract B) w b w' :
  bind c k w = Ok b w' -> exists a w1, c w = Ok a w1 /\ k a w1 = Ok b w'.
Proof. unfold bind. destruct (c w) as [a w1|e]; [eauto | discriminate]. Qed.

Lemma bind_Revert {A B} (c : Contract A) (k : A -> Contract B) w e :
  bind c k w = Revert e ->
  c w = Revert e \/ exists a w1, c w = Ok a w1 /\ k a w1 = Revert e.
Proof.
  unfold bind. destruct (c w) as [a w1|e'].
  - intros H. right. exists a, w1. done.
  - intros [= ->]. by left.
Qed.

Lemma require_Ok cond s w u w' :
  require cond s w = Ok u w' -> cond w = true /\ w' = w.
Proof.
  unfold require. destruct (cond w); [|discriminate]. by intros [= _ ->].
Qed.

Lemma update_Ok f w u w' : update f w = Ok u w' -> w' = f w.
Proof. unfold update. by intros [= _ <-]. Qed.

Lemma call_Success msg f w w' :
  call msg f w = (Success, w') ->
  f msg (pay (sender msg) this (value msg) w) = Ok tt w'.
Proof.
  unfold call. destruct (f msg _) as [[] w1|e]; [|discriminate].
  by intros [= ->].
Qed.

Lemma call_Failure msg f w e w' :
  call msg f w = (Failure e, w') ->
  w' = w /\ f msg (pay (sender msg) this (value msg) w) = Revert e.
Proof.
  unfold call. destruct (f msg _) as [[] w1|e0]; [discriminate|].
  by intros [= -> ->].
Qed.

Lemma task_at_insert_eq i t m w :
  task_at i (with_tasks (<[i := t]> m) w) = t.
Proof. unfold task_at. simpl. by rewrite lookup_insert_eq. Qed.

Lemma transfer_Ok to amount w u w' :
  transfer to amount w = Ok u w' ->
  amount w <= balance this w /\ accepts (to w) = true
  /\ w' = credit (to w) (amount w) (debit this (amount w) w).
Proof.
  unfold transfer.
  destruct (amount w <=? balance this w) eqn:E; [|discriminate].
  destruct (accepts (to w)) eqn:E'; [|discriminate].
  intros [= _ <-]. by apply N.leb_le in E.
Qed.

(** Peels the first statement off a body known to succeed. *)
Ltac peel H :=
  let u := fresh "u" in
  let w1 := fresh "w" in
  let H1 := fresh "Hc" in
  apply bind_Ok in H as (u & w1 & H1 & H);
  first [ apply require_Ok in H1 as [H1 ->]
        | apply update_Ok in H1 as ->
        | apply transfer_Ok in H1 as (? & ? & ->) ].

(** ** What a successful call does *)

Lemma approve_ok a i w w' :
  perform (ApproveTask a i) w = (Success, w') ->
  let t := task_at i w in
  i < nextTaskId w /\ a = employer t /\ isSubmitted t = true
  /\ isApproved t = false /\ agent t <> address0
  /\ reward t <= balance this w /\ accepts (agent t) = true
  /\ nextTaskId w' = nextTaskId w
  /\ tasks w' = <[i := set_isCompleted true (set_isApproved true t)]> (tasks w)
  /\ employerTasks w' = employerTasks w
  /\ balances w' =
     balances (credit (agent t) (reward t) (debit this (reward t) w))
  /\ events w' = events w ++ [TaskApproved i a (agent t) (reward t)].
Proof.
  intros H. unfold perform in H. apply call_Success in H.
  unfold approveTask, pay in H. simpl in H.
  do 8 peel H. apply update_Ok in H as ->.
  rewrite !task_at_insert_eq in *. simpl in *.
  apply N.ltb_lt in Hc. apply N.eqb_eq in Hc0.
  apply negb_true_iff in Hc2, Hc3. apply N.eqb_neq in Hc3.
  rewrite insert_insert_eq.
  repeat split; try done.
  unfold task_at, credit, debit. simpl. by rewrite lookup_insert_eq.
Qed.

Lemma submit_ok a i url w w' :
  perform (SubmitTask a i url) w = (Success, w') ->
  let t := task_at i w in
  i < nextTaskId w /\ agent t = address0 /\ url <> ""
  /\ nextTaskId w' = nextTaskId w
  /\ tasks w' =
       <[i := set_isSubmitted true (set_submissionUrl url (set_agent a t))]>
         (tasks w)
  /\ employerTasks w' = employerTasks w
  /\ balances w' = balances w
  /\ events w' = events w ++ [TaskSubmitted i a url].
Proof.
  intros H. unfold perform in H. apply call_Success in H.
  unfold submitTask, pay in H. simpl in H.
  do 6 peel H. apply update_Ok in H as ->.
  rewrite !task_at_insert_eq in *. simpl in *.
  apply N.ltb_lt in Hc. apply N.eqb_eq in Hc0.
  rewrite !insert_insert_eq.
  repeat split; try done.
  intros ->. discriminate.
Qed.

Lemma create_ok a v d w w' :
  perform (CreateTask a v d) w = (Success, w') ->
  let n := nextTaskId w in
  0 < v /\ d <> "" /\ n < MAX_UINT256
  /\ nextTaskId w' = n + 1
  /\ tasks w' =
       <[n := mkTask n a address0 d v "" false false false]> (tasks w)
  /\ employerTasks w' =
       <[a := employerTasks_at a w ++ [n]]> (employerTasks w)
  /\ balances w' = balances (credit this v (debit a v w))
  /\ events w' = events w ++ [TaskCreated n a v d].
Proof.
  intros H. unfold perform in H. apply call_Success in H.
  unfold createTask in H. simpl in H.
  peel H. apply N.ltb_lt in Hc.
  unfold pay in *. destruct (v =? 0) eqn:Ev; [apply N.eqb_eq in Ev; lia|].
  do 4 peel H.
  unfold increment_nextTaskId in H. simpl in H.
  destruct (nextTaskId w <? MAX_UINT256) eqn:En; [|discriminate].
  injection H as <-. apply N.ltb_lt in En. simpl.
  repeat split; try done.
  intros ->. discriminate.
Qed.

(** A call that fails leaves the world as it was. *)
Lemma perform_Failure op w e w' :
  perform op w = (Failure e, w') -> w' = w.
Proof.
  destruct op; unfold perform; intros H; by apply call_Failure in H as [-> _].
Qed.

(** ** Reading a task after a write *)

Lemma task_at_lookup i t w : tasks w !! i = Some t -> task_at i w = t.
Proof. unfold task_at. by intros ->. Qed.

Lemma task_at_written i t w w' :
  tasks w' = <[i := t]> (tasks w) -> task_at i w' = t.
Proof. unfold task_at. intros ->. by rewrite lookup_insert_eq. Qed.

Lemma task_at_other i j t w w' :
  tasks w' = <[i := t]> (tasks w) -> i <> j -> task_at j w' = task_at j w.
Proof. unfold task_at. intros -> Hne. by rewrite lookup_insert_ne. Qed.

Lemma task_at_same j w w' : tasks w' = tasks w -> task_at j w' = task_at j w.
Proof. unfold task_at. by intros ->. Qed.

(** ** The list of ids *)

Lemma ids_succ n : ids (n + 1) = ids n ++ [n].
Proof.
  unfold ids. replace (N.to_nat (n + 1)) with (S (N.to_nat n)) by lia.
  rewrite seq_S, map_app. simpl. by rewrite N2Nat.id.
Qed.

Lemma in_ids n i : In i (ids n) <-> i < n.
Proof.
  unfold ids. rewrite in_map_iff. split.
  - intros (k & <- & Hk). apply in_seq in Hk. lia.
  - intros Hi. exists (N.to_nat i). split; [apply N2Nat.id|].
    apply in_seq. lia.
Qed.

Lemma ids_sorted n : StronglySorted N.lt (ids n).
Proof.
  induction n as [|n IH] using N.peano_ind; [constructor|].
  rewrite <- N.add_1_r, ids_succ.
  apply StronglySorted_app_2; [|done|repeat constructor].
  intros x y Hx Hy%list_elem_of_singleton. subst y.
  by apply in_ids, list_elem_of_In.
Qed.

Lemma filter_sorted {A} (R : A -> A -> Prop) (f : A -> bool) l :
  StronglySorted R l -> StronglySorted R (List.filter f l).
Proof.
  induction 1 as [|x l Hl IH Hx]; simpl; [constructor|].
  destruct (f x); [|done].
  constructor; [done|].
  apply Forall_forall. intros y Hy%list_elem_of_In%filter_In.
  rewrite Forall_forall in Hx. apply Hx, list_elem_of_In, Hy.
Qed.

(** ** The invariant of the ledger *)

Lemma deployed_inv b : world_inv (deployed b).
Proof.
  split; simpl.
  - unfold MAX_UINT256. lia.
  - intros i _. apply lookup_empty.
  - intros i Hi. lia.
  - intros a. unfold employerTasks_at. simpl. by rewrite lookup_empty.
Qed.

Lemma well_formed_sender op w :
  well_formed op w = true ->
  op_sender op <> address0 /\ op_sender op <> this
  /\ op_value op <= balance (op_sender op) w.
Proof.
  unfold well_formed. rewrite !andb_true_iff, !negb_true_iff.
  intros [[H0 Ht] Hv]. apply N.eqb_neq in H0, Ht. by apply N.leb_le in Hv.
Qed.

Lemma create_inv a v d w w' :
  a <> address0 -> a <> this -> world_inv w ->
  perform (CreateTask a v d) w = (Success, w') -> world_inv w'.
Proof.
  intros Ha0 Hat [Hb Hf Ht Hi] H.
  apply create_ok in H as (Hv & Hd & Hn & Hn' & Htk & Hem & _ & _).
  split.
  - lia.
  - intros i Hle. rewrite Htk, lookup_insert_ne by lia. apply Hf. lia.
  - intros i Hlt. destruct (decide (i = nextTaskId w)) as [->|Hne].
    + rewrite Htk, lookup_insert_eq. eexists. split; [done|].
      split; simpl; done.
    + rewrite Htk, lookup_insert_ne by done. apply Ht. lia.
  - intros a'. rewrite Hn', ids_succ, List.filter_app. simpl.
    rewrite (task_at_written _ _ _ _ Htk). simpl.
    rewrite (List.filter_ext_in _ (fun i => employer (task_at i w) =? a')).
    2:{ intros i Hin%in_ids.
        rewrite (task_at_other _ i _ _ _ Htk); [done|lia]. }
    rewrite <- Hi. unfold employerTasks_at at 1. rewrite Hem.
    destruct (decide (a = a')) as [->|Hne].
    + by rewrite lookup_insert_eq, N.eqb_refl.
    + rewrite lookup_insert_ne by done.
      apply N.eqb_neq in Hne. rewrite Hne. by rewrite app_nil_r.
Qed.

Lemma submit_inv a i u w w' :
  a <> address0 -> a <> this -> world_inv w ->
  perform (SubmitTask a i u) w = (Success, w') -> world_inv w'.
Proof.
  intros Ha0 Hat [Hb Hf Ht Hi] H.
  apply submit_ok in H as (Hlt & Hag & Hu & Hn' & Htk & Hem & _ & _).
  destruct (Ht i Hlt) as (t & Hlk & Hinv).
  rewrite (task_at_lookup _ _ _ Hlk) in Htk, Hag.
  split.
  - by rewrite Hn'.
  - rewrite Hn'. intros j Hle. rewrite Htk, lookup_insert_ne by lia.
    by apply Hf.
  - rewrite Hn'. intros j Hj. destruct (decide (j = i)) as [->|Hne].
    + rewrite Htk, lookup_insert_eq. eexists. split; [done|].
      destruct Hinv. split; simpl; try done.
    + rewrite Htk, lookup_insert_ne by done. by apply Ht.
  - intros a'. rewrite Hn'. unfold employerTasks_at. rewrite Hem.
    fold (employerTasks_at a' w). rewrite Hi.
    apply List.filter_ext_in. intros j _.
    destruct (decide (i = j)) as [<-|Hne].
    + rewrite (task_at_written _ _ _ _ Htk), (task_at_lookup _ _ _ Hlk). done.
    + by rewrite (task_at_other _ j _ _ _ Htk).
Qed.

Lemma approve_inv a i w w' :
  world_inv w ->
  perform (ApproveTask a i) w = (Success, w') -> world_inv w'.
Proof.
  intros [Hb Hf Ht Hi] H.
  apply approve_ok in H
    as (Hlt & Hem & Hsub & Happ & Hag & _ & _ & Hn' & Htk & Hidx & _ & _).
  destruct (Ht i Hlt) as (t & Hlk & Hinv).
  rewrite (task_at_lookup _ _ _ Hlk) in Htk, Hsub, Happ, Hag.
  split.
  - by rewrite Hn'.
  - rewrite Hn'. intros j Hle. rewrite Htk, lookup_insert_ne by lia.
    by apply Hf.
  - rewrite Hn'. intros j Hj. destruct (decide (j = i)) as [->|Hne].
    + rewrite Htk, lookup_insert_eq. eexists. split; [done|].
      destruct Hinv. split; simpl; done.
    + rewrite Htk, lookup_insert_ne by done. by apply Ht.
  - intros a'. rewrite Hn'. unfold employerTasks_at. rewrite Hidx.
    fold (employerTasks_at a' w). rewrite Hi.
    apply List.filter_ext_in. intros j _.
    destruct (decide (i = j)) as [<-|Hne].
    + rewrite (task_at_written _ _ _ _ Htk), (task_at_lookup _ _ _ Hlk). done.
    + by rewrite (task_at_other _ j _ _ _ Htk).
Qed.

Lemma step_inv w w' : step w w' -> world_inv w -> world_inv w'.
Proof.
  intros [op w0 Hwf] Hinv.
  apply well_formed_sender in Hwf as (H0 & Hthis & _).
  destruct (perform op w0) as [[|e] w1] eqn:E; simpl.
  - destruct op; simpl in *;
      eauto using create_inv, submit_inv, approve_inv.
  - by apply perform_Failure in E as ->.
Qed.

Lemma steps_inv w w' : steps w w' -> world_inv w -> world_inv w'.
Proof. induction 1; eauto using step_inv. Qed.

Lemma reachable_inv w : reachable w -> world_inv w.
Proof. intros [b H]. eapply steps_inv; [done|apply deployed_inv]. Qed.

(** ** How a task record evolves *)

Lemma task_evolves_refl t : task_evolves t t.
Proof. by split. Qed.

Lemma task_evolves_trans t1 t2 t3 :
  task_evolves t1 t2 -> task_evolves t2 t3 -> task_evolves t1 t3.
Proof.
  intros [] []. split; try congruence; try tauto.
  intros Ha. split.
  - transitivity (agent t2); [|tauto].
    apply ev_agent1. destruct (ev_agent0 Ha) as [-> _]. done.
  - transitivity (submissionUrl t2); [|tauto].
    apply ev_agent1. destruct (ev_agent0 Ha) as [-> _]. done.
Qed.

Lemma step_evolves w w' i :
  step w w' -> i < nextTaskId w ->
  nextTaskId w <= nextTaskId w'
  /\ task_evolves (task_at i w) (task_at i w').
Proof.
  intros [op w0 _] Hi.
  destruct (perform op w0) as [[|e] w1] eqn:E; simpl.
  2:{ apply perform_Failure in E as ->. split; [lia|apply task_evolves_refl]. }
  destruct op as [a v d|a j u|a j].
  - apply create_ok in E as (_ & _ & _ & Hn' & Htk & _). split; [lia|].
    rewrite (task_at_other _ i _ _ _ Htk) by lia. apply task_evolves_refl.
  - apply submit_ok in E as (_ & Hag & _ & Hn' & Htk & _). split; [lia|].
    destruct (decide (j = i)) as [->|Hne].
    + rewrite (task_at_written _ _ _ _ Htk). split; simpl; done.
    + rewrite (task_at_other _ i _ _ _ Htk) by done. apply task_evolves_refl.
  - apply approve_ok in E as (_ & _ & _ & _ & _ & _ & _ & Hn' & Htk & _).
    split; [lia|].
    destruct (decide (j = i)) as [->|Hne].
    + rewrite (task_at_written _ _ _ _ Htk). split; simpl; done.
    + rewrite (task_at_other _ i _ _ _ Htk) by done. apply task_evolves_refl.
Qed.

Lemma steps_evolves w w' i :
  steps w w' -> i < nextTaskId w ->
  nextTaskId w <= nextTaskId w'
  /\ task_evolves (task_at i w) (task_at i w').
Proof.
  induction 1 as [w|w1 w2 w3 H12 H23 IH]; intros Hi.
  - split; [lia|apply task_evolves_refl].
  - destruct (step_evolves _ _ i H12 Hi) as [Hle Hev].
    destruct IH as [Hle' Hev']; [lia|].
    split; [lia|]. by eapply task_evolves_trans.
Qed.

(** ** Which check stops a call *)

Ltac start_call :=
  unfold perform, call, createTask, submitTask, approveTask, pay, bind, require;
  simpl.

Ltac pass E := rewrite ?E; simpl.

Lemma approve_TaskNotFound a i w :
  nextTaskId w <= i ->
  perform (ApproveTask a i) w = (Failure TaskNotFound, w).
Proof. intros E1%N.ltb_ge. start_call. by pass E1. Qed.

Lemma approve_Unauthorized a i w :
  i < nextTaskId w -> a <> employer (task_at i w) ->
  perform (ApproveTask a i) w = (Failure Unauthorized, w).
Proof.
  intros E1%N.ltb_lt E2%N.eqb_neq. start_call. pass E1. by pass E2.
Qed.

Lemma approve_NotSubmitted a i w :
  i < nextTaskId w -> a = employer (task_at i w) ->
  isSubmitted (task_at i w) = false ->
  perform (ApproveTask a i) w = (Failure NotSubmitted, w).
Proof.
  intros E1%N.ltb_lt E2%N.eqb_eq E3. start_call. pass E1. pass E2. by pass E3.
Qed.

Lemma approve_AlreadyApproved a i w :
  i < nextTaskId w -> a = employer (task_at i w) ->
  isSubmitted (task_at i w) = true -> isApproved (task_at i w) = true ->
  perform (ApproveTask a i) w = (Failure AlreadyApproved, w).
Proof.
  intros E1%N.ltb_lt E2%N.eqb_eq E3 E4. start_call.
  pass E1. pass E2. pass E3. by pass E4.
Qed.

Lemma approve_NoAgent a i w :
  i < nextTaskId w -> a = employer (task_at i w) ->
  isSubmitted (task_at i w) = true -> isApproved (task_at i w) = false ->
  agent (task_at i w) = address0 ->
  perform (ApproveTask a i) w = (Failure NoAgent, w).
Proof.
  intros E1%N.ltb_lt E2%N.eqb_eq E3 E4 E5%N.eqb_eq. start_call.
  pass E1. pass E2. pass E3. pass E4. by pass E5.
Qed.

Lemma approve_TransferFailed a i w :
  i < nextTaskId w -> a = employer (task_at i w) ->
  isSubmitted (task_at i w) = true -> isApproved (task_at i w) = false ->
  agent (task_at i w) <> address0 ->
  balance this w < reward (task_at i w)
  \/ accepts (agent (task_at i w)) = false ->
  perform (ApproveTask a i) w = (Failure TransferFailed, w).
Proof.
  intros E1%N.ltb_lt E2%N.eqb_eq E3 E4 E5%N.eqb_neq E6. start_call.
  pass E1. pass E2. pass E3. pass E4. pass E5.
  unfold assign, update, transfer. simpl. rewrite !task_at_insert_eq. simpl.
  replace (balance this _) with (balance this w) by done.
  destruct E6 as [E6%N.leb_gt|E6]; rewrite E6; simpl; [done|].
  by rewrite andb_false_r.
Qed.

Lemma approve_succeeds a i w :
  i < nextTaskId w -> a = employer (task_at i w) ->
  isSubmitted (task_at i w) = true -> isApproved (task_at i w) = false ->
  agent (task_at i w) <> address0 ->
  reward (task_at i w) <= balance this w ->
  accepts (agent (task_at i w)) = true ->
  exists w', perform (ApproveTask a i) w = (Success, w').
Proof.
  intros E1%N.ltb_lt E2%N.eqb_eq E3 E4 E5%N.eqb_neq E6%N.leb_le E7. start_call.
  pass E1. pass E2. pass E3. pass E4. pass E5.
  unfold assign, update, transfer, emit, update. simpl.
  rewrite !task_at_insert_eq. simpl.
  replace (balance this _) with (balance this w) by done.
  rewrite E6, E7. simpl. eauto.
Qed.

Lemma submit_succeeds a i u w :
  i < nextTaskId w -> agent (task_at i w) = address0 -> u <> "" ->
  exists w', perform (SubmitTask a i u) w = (Success, w').
Proof.
  intros E1%N.ltb_lt E2%N.eqb_eq Hu. start_call. pass E1. pass E2.
  destruct u as [|c u]; [done|]. simpl. eauto.
Qed.

Lemma create_succeeds a v d w :
  0 < v -> d <> "" -> nextTaskId w < MAX_UINT256 ->
  exists w', perform (CreateTask a v d) w = (Success, w').
Proof.
  intros E1%N.ltb_lt Hd E2%N.ltb_lt. start_call. pass E1.
  destruct d as [|c d]; [done|]. simpl.
  unfold increment_nextTaskId. simpl.
  destruct (v =? 0); simpl; rewrite E2; eauto.
Qed.

Lemma submit_TaskNotFound a i u w :
  nextTaskId w <= i ->
  perform (SubmitTask a i u) w = (Failure TaskNotFound, w).
Proof. intros E1%N.ltb_ge. start_call. by pass E1. Qed.

Lemma submit_AlreadyClaimed a i u w :
  i < nextTaskId w -> agent (task_at i w) <> address0 ->
  perform (SubmitTask a i u) w = (Failure AlreadyClaimed, w).
Proof.
  intros E1%N.ltb_lt E2%N.eqb_neq. start_call. pass E1. by pass E2.
Qed.

Lemma submit_EmptySubmission a i w :
  i < nextTaskId w -> agent (task_at i w) = address0 ->
  perform (SubmitTask a i "") w = (Failure EmptySubmission, w).
Proof.
  intros E1%N.ltb_lt E2%N.eqb_eq. start_call. pass E1. by pass E2.
Qed.

Lemma create_InvalidReward a d w :
  perform (CreateTask a 0 d) w = (Failure InvalidReward, w).
Proof. by start_call. Qed.

Lemma create_InvalidDescription a v w :
  0 < v ->
  perform (CreateTask a v "") w = (Failure InvalidDescription, w).
Proof. intros E%N.ltb_lt. start_call. by pass E. Qed.

Lemma getTask_in_range i w :
  i < nextTaskId w -> staticcall (getTask i) w = inl (task_at i w).
Proof.
  intros E%N.ltb_lt. unfold staticcall, getTask, bind, require. by rewrite E.
Qed.

Lemma getTask_out_of_range i w :
  nextTaskId w <= i -> staticcall (getTask i) w = inr TaskNotFound.
Proof.
  intros E%N.ltb_ge. unfold staticcall, getTask, bind, require. by rewrite E.
Qed.

Lemma getTask_inl i w t :
  staticcall (getTask i) w = inl t -> i < nextTaskId w /\ t = task_at i w.
Proof.
  destruct (N.lt_ge_cases i (nextTaskId w)) as [Hlt|Hge].
  - rewrite getTask_in_range by done. by intros [= <-].
  - by rewrite getTask_out_of_range.
Qed.

(** ** Running a list of transactions *)

Lemma run_steps ops w : well_formed_trace ops w = true -> steps w (run ops w).
Proof.
  revert w. induction ops as [|op ops IH]; intros w; simpl.
  - intros _. apply rtc_refl.
  - intros [Hop Hrest]%andb_true_iff.
    eapply rtc_l; [by apply step_perform|by apply IH].
Qed.

Lemma run_reachable ops b :
  well_formed_trace ops (deployed b) = true -> reachable (run ops (deployed b)).
Proof. intros H. exists b. by apply run_steps. Qed.

(** ** After an approval *)

Lemma approve_again a i w w1 w2 c :
  perform (ApproveTask a i) w = (Success, w1) -> steps w1 w2 ->
  perform (ApproveTask c i) w2 =
  (Failure (if c =? a then AlreadyApproved else Unauthorized), w2).
Proof.
  intros Hok Hsteps.
  apply approve_ok in Hok
    as (Hlt & Hemp & Hsub & _ & _ & _ & _ & Hn' & Htk & _).
  pose proof (task_at_written _ _ _ _ Htk) as Ht'.
  destruct (steps_evolves w1 w2 i Hsteps) as [Hle Hev]; [lia|].
  rewrite Ht' in Hev. destruct Hev. simpl in *.
  destruct (c =? a) eqn:Ec.
  - apply N.eqb_eq in Ec as ->.
    apply approve_AlreadyApproved; [lia|congruence|auto|auto].
  - apply N.eqb_neq in Ec.
    apply approve_Unauthorized; [lia|congruence].
Qed.

(** ** Balances after the payout *)

Lemma balance_paid w w' to r :
  balances w' = balances (credit to r (debit this r w)) ->
  to <> this -> r <= balance this w ->
  balance to w' = balance to w + r
  /\ balance this w' + r = balance this w
  /\ (forall x, x <> to -> x <> this -> balance x w' = balance x w).
Proof.
  intros Hb Hne Hle. unfold balance in *. rewrite Hb.
  unfold credit, debit, balance. simpl. repeat split.
  - rewrite lookup_insert_eq, lookup_insert_ne by done. done.
  - rewrite lookup_insert_ne, lookup_insert_eq by done. simpl. lia.
  - intros x Hx Hx'. by rewrite !lookup_insert_ne by done.
Qed.

(** Funds leave the contract by a successful approval only. *)
Lemma funds_leave_by_approval op w o w' :
  perform op w = (o, w') -> op_sender op <> this ->
  balance this w' < balance this w ->
  exists a i, op = ApproveTask a i /\ o = Success.
Proof.
  intros H Hne Hlt. destruct o as [|e].
  2:{ apply perform_Failure in H as ->. lia. }
  destruct op as [a v d|a i u|a i]; simpl in Hne.
  - apply create_ok in H as (_ & _ & _ & _ & _ & _ & Hb & _).
    unfold balance in Hlt at 1. rewrite Hb in Hlt.
    unfold credit, debit, balance in Hlt. simpl in Hlt.
    rewrite lookup_insert_eq, lookup_insert_ne in Hlt by done.
    simpl in Hlt. lia.
  - apply submit_ok in H as (_ & _ & _ & _ & _ & _ & Hb & _).
    unfold balance in Hlt. rewrite Hb in Hlt. lia.
  - by exists a, i.
Qed.

(** ** Solvency *)

Lemma total_app f l1 l2 : total f (l1 ++ l2) = total f l1 + total f l2.
Proof. induction l1 as [|x l1 IH]; simpl; [done|]. rewrite IH. lia. Qed.

Lemma total_ext f g l :
  (forall i, In i l -> f i = g i) -> total f l = total g l.
Proof.
  induction l as [|x l IH]; simpl; [done|]. intros H.
  rewrite (H x), IH by auto. done.
Qed.

Lemma total_ids_succ f n : total f (ids (n + 1)) = total f (ids n) + f n.
Proof. rewrite ids_succ, total_app. simpl. lia. Qed.

Lemma total_ids_ext f g n :
  (forall i, i < n -> f i = g i) -> total f (ids n) = total g (ids n).
Proof. intros H. apply total_ext. intros i Hi%in_ids. by apply H. Qed.

(** Changing the summand at one id. *)
Lemma total_ids_change f g n i :
  i < n -> (forall j, j <> i -> f j = g j) ->
  total g (ids n) + f i = total f (ids n) + g i.
Proof.
  intros Hi Hfg. revert Hi.
  induction n as [|n IH] using N.peano_ind; [lia|].
  rewrite <- N.add_1_r, !total_ids_succ. intros Hi.
  destruct (decide (i = n)) as [->|Hne].
  - rewrite (total_ids_ext f g n); [lia|].
    intros j Hj. apply Hfg. lia.
  - rewrite (Hfg n) by done. specialize (IH ltac:(lia)). lia.
Qed.

Lemma total_ids_ge f n i : i < n -> f i <= total f (ids n).
Proof.
  induction n as [|n IH] using N.peano_ind; [lia|].
  rewrite <- N.add_1_r, total_ids_succ. intros Hi.
  destruct (decide (i = n)) as [->|Hne]; [lia|].
  specialize (IH ltac:(lia)). lia.
Qed.

Lemma deployed_solvent b : solvent (deployed b).
Proof. unfold solvent, owed. simpl. lia. Qed.

Lemma balance_received w w' a v :
  balances w' = balances (credit this v (debit a v w)) -> a <> this ->
  balance this w' = balance this w + v.
Proof.
  intros Hb Hne. unfold balance at 1. rewrite Hb.
  unfold credit, debit, balance. simpl.
  by rewrite lookup_insert_eq, lookup_insert_ne.
Qed.

Lemma step_solvent w w' :
  step w w' -> world_inv w -> solvent w -> solvent w'.
Proof.
  intros [op w0 Hwf] Hinv Hsol.
  apply well_formed_sender in Hwf as (_ & Hthis & _).
  destruct (perform op w0) as [[|e] w1] eqn:E; simpl.
  2:{ by apply perform_Failure in E as ->. }
  unfold solvent, owed in *.
  destruct op as [a v d|a i u|a i]; simpl in Hthis.
  - apply create_ok in E as (_ & _ & _ & Hn' & Htk & _ & Hb & _).
    rewrite Hn', total_ids_succ.
    rewrite (balance_received _ _ _ _ Hb Hthis).
    rewrite (total_ids_ext _ (owed_at w0)).
    2:{ intros j Hj. unfold owed_at.
        rewrite (task_at_other _ j _ _ _ Htk); [done|lia]. }
    unfold owed_at at 2. rewrite (task_at_written _ _ _ _ Htk). simpl. lia.
  - apply submit_ok in E as (_ & _ & _ & Hn' & Htk & _ & Hb & _).
    rewrite Hn'. unfold balance. rewrite Hb. fold (balance this w0).
    rewrite (total_ids_ext _ (owed_at w0)); [done|].
    intros j _. unfold owed_at. destruct (decide (i = j)) as [<-|Hne].
    + by rewrite (task_at_written _ _ _ _ Htk).
    + by rewrite (task_at_other _ j _ _ _ Htk).
  - apply approve_ok in E
      as (Hlt & _ & _ & Happ & Hag & Hle & _ & Hn' & Htk & _ & Hb & _).
    destruct (inv_tasks _ Hinv i Hlt) as (t & Hlk & Ht).
    rewrite (task_at_lookup _ _ _ Hlk) in *.
    destruct (balance_paid w0 w1 (agent t) (reward t) Hb) as (_ & Hb2 & _);
      [by apply (inv_agent_this _ _ Ht)|done|].
    rewrite Hn'.
    assert (owed_at w0 i = reward t) as Hf.
    { unfold owed_at. by rewrite (task_at_lookup _ _ _ Hlk), Happ. }
    assert (owed_at w1 i = 0) as Hg.
    { unfold owed_at. by rewrite (task_at_written _ _ _ _ Htk). }
    pose proof (total_ids_change (owed_at w0) (owed_at w1) _ i Hlt) as Hch.
    rewrite Hf, Hg in Hch.
    assert (forall j, j <> i -> owed_at w0 j = owed_at w1 j) as Hframe.
    { intros j Hne. unfold owed_at. by rewrite (task_at_other _ j _ _ _ Htk). }
    specialize (Hch Hframe). lia.
Qed.

Lemma steps_solvent w w' :
  steps w w' -> world_inv w -> solvent w -> solvent w'.
Proof.
  induction 1 as [|w1 w2 w3 H12 _ IH]; [done|]. intros Hinv Hsol.
  apply IH; [by eapply step_inv|by eapply step_solvent].
Qed.

Lemma reachable_solvent w : reachable w -> solvent w.
Proof.
  intros [b H]. eapply steps_solvent;
    [done|apply deployed_inv|apply deployed_solvent].
Qed.

(** The escrow is there when it is due: in a reachable world the employer's
    approval of a submitted, not yet approved task goes through as soon as
    the agent accepts the payment. *)
Lemma approval_available w i :
  reachable w -> i < nextTaskId w ->
  isSubmitted (task_at i w) = true -> isApproved (task_at i w) = false ->
  accepts (agent (task_at i w)) = true ->
  exists w', perform (ApproveTask (employer (task_at i w)) i) w = (Success, w').
Proof.
  intros Hreach Hlt Hsub Happ Hacc.
  pose proof (reachable_inv _ Hreach) as Hinv.
  pose proof (reachable_solvent _ Hreach) as Hsol.
  destruct (inv_tasks _ Hinv i Hlt) as (t & Hlk & Ht).
  rewrite (task_at_lookup _ _ _ Hlk) in *.
  apply approve_succeeds; rewrite ?(task_at_lookup _ _ _ Hlk); try done.
  - intros H0. apply (inv_agent _ _ Ht) in H0. congruence.
  - unfold solvent, owed in Hsol.
    pose proof (total_ids_ge (owed_at w) (nextTaskId w) i Hlt) as Hge.
    unfold owed_at at 1 in Hge.
    rewrite (task_at_lookup _ _ _ Hlk), Happ in Hge. lia.
Qed.

(** * The claims *)

(** C1. In every reachable world, a successful [approveTask] on a created
    task finds both flags unset, sets [isApproved] and [isCompleted], and
    moves exactly the task's reward from the contract to the task's agent,
    every other balance staying as it was; afterwards every [approveTask]
    on that task fails, whoever calls and whatever happened in between, so
    the payout happens at most once.  A failing [approveTask] leaves the
    world unchanged, and a transfer the agent does not accept makes the
    call fail. *)
Theorem approveTask_pays_once w a i :
  reachable w ->
  let t := task_at i w in
  (forall w', perform (ApproveTask a i) w = (Success, w') ->
     i < nextTaskId w
     /\ isApproved t = false /\ isCompleted t = false
     /\ isApproved (task_at i w') = true /\ isCompleted (task_at i w') = true
     /\ balance (agent t) w' = balance (agent t) w + reward t
     /\ balance this w' + reward t = balance this w
     /\ (forall x, x <> agent t -> x <> this -> balance x w' = balance x w)
     /\ (forall w'' c, steps w' w'' ->
           perform (ApproveTask c i) w'' =
           (Failure (if c =? a then AlreadyApproved else Unauthorized), w'')))
  /\ (forall e w', perform (ApproveTask a i) w = (Failure e, w') -> w' = w)
  /\ (i < nextTaskId w -> a = employer t -> isSubmitted t = true ->
      isApproved t = false -> accepts (agent t) = false ->
      perform (ApproveTask a i) w = (Failure TransferFailed, w)).
Proof.
  intros Hreach t. apply reachable_inv in Hreach as Hinv.
  split; [|split].
  - intros w' Hok. pose proof Hok as Hagain.
    apply approve_ok in Hok
      as (Hlt & Hemp & Hsub & Happ & Hag & Hbal & _ & Hn' & Htk & _ & Hb & _).
    fold t in Hemp, Hsub, Happ, Hag, Hbal, Htk, Hb.
    destruct (inv_tasks _ Hinv i Hlt) as (t0 & Hlk & Ht0).
    assert (t0 = t) as -> by (symmetry; by apply task_at_lookup).
    destruct (balance_paid w w' (agent t) (reward t) Hb) as (Hb1 & Hb2 & Hb3);
      [by apply (inv_agent_this _ _ Ht0)|done|].
    pose proof (task_at_written _ _ _ _ Htk) as Ht'.
    repeat split; try done.
    + by rewrite (inv_completed _ _ Ht0).
    + by rewrite Ht'.
    + by rewrite Ht'.
    + intros w'' c Hsteps. by eapply approve_again.
  - intros e w'. apply perform_Failure.
  - intros Hlt Hemp Hsub Happ Hacc.
    apply approve_TransferFailed; try done; [|by right].
    destruct (inv_tasks _ Hinv i Hlt) as (t0 & Hlk & Ht0).
    assert (t0 = t) as -> by (symmetry; by apply task_at_lookup).
    intros H0. apply (inv_agent _ _ Ht0) in H0. congruence.
Qed.

(** C2 (amended). [approveTask] makes its checks in a fixed order and
    fails with the first that does not hold: [TaskNotFound] when the id is
    out of range; [Unauthorized] when the id exists and the caller is not
    the task's employer; [NotSubmitted] when the caller is the employer and
    [isSubmitted] is false; [AlreadyApproved] when the caller is the
    employer and the task is already approved, as on every later call by the
    employer after a successful approval; [NoAgent] when the caller is the
    employer, the task is submitted and not approved, and [agent] is unset.
    In a reachable world a call on a created task whose agent is unset fails
    with [NotSubmitted] (employer) or [Unauthorized] (anyone else).  In each
    case the world is left as it was. *)
Theorem approveTask_errors w a i :
  let t := task_at i w in
  (nextTaskId w <= i ->
   perform (ApproveTask a i) w = (Failure TaskNotFound, w))
  /\ (i < nextTaskId w -> a <> employer t ->
      perform (ApproveTask a i) w = (Failure Unauthorized, w))
  /\ (i < nextTaskId w -> a = employer t -> isSubmitted t = false ->
      perform (ApproveTask a i) w = (Failure NotSubmitted, w))
  /\ (i < nextTaskId w -> a = employer t -> isSubmitted t = true ->
      isApproved t = true ->
      perform (ApproveTask a i) w = (Failure AlreadyApproved, w))
  /\ (i < nextTaskId w -> a = employer t -> isSubmitted t = true ->
      isApproved t = false -> agent t = address0 ->
      perform (ApproveTask a i) w = (Failure NoAgent, w))
  /\ (forall w1 w2, perform (ApproveTask a i) w = (Success, w1) ->
      steps w1 w2 ->
      perform (ApproveTask a i) w2 = (Failure AlreadyApproved, w2))
  /\ (reachable w -> i < nextTaskId w -> agent t = address0 ->
      perform (ApproveTask a i) w =
      (Failure (if a =? employer t then NotSubmitted else Unauthorized), w))
  /\ (forall e w', perform (ApproveTask a i) w = (Failure e, w') -> w' = w).
Proof.
  intros t. repeat split.
  - apply approve_TaskNotFound.
  - apply approve_Unauthorized.
  - apply approve_NotSubmitted.
  - apply approve_AlreadyApproved.
  - apply approve_NoAgent.
  - intros w1 w2 Hok Hsteps.
    rewrite (approve_again a i w w1 w2 a Hok Hsteps). by rewrite N.eqb_refl.
  - intros Hreach Hlt Hag. apply reachable_inv in Hreach as Hinv.
    destruct (inv_tasks _ Hinv i Hlt) as (t0 & Hlk & Ht0).
    assert (t0 = t) as -> by (symmetry; by apply task_at_lookup).
    apply (inv_agent _ _ Ht0) in Hag.
    destruct (a =? employer t) eqn:E.
    + apply N.eqb_eq in E. by apply approve_NotSubmitted.
    + apply N.eqb_neq in E. by apply approve_Unauthorized.
  - intros e w'. apply perform_Failure.
Qed.

(** C3. When [submitTask] succeeds on a task, nobody had claimed the task
    before, and the call sets [agent] to the caller, [submissionUrl] to the
    given value and [isSubmitted] to true.  From then on, after any
    transactions, every [submitTask] on that task fails with
    [AlreadyClaimed], whoever calls and whatever url is given, and [agent]
    and [submissionUrl] stay as that first submission set them.  (The caller
    is an account, hence not [address(0)].) *)
Theorem submitTask_first_wins w a i u w1 :
  a <> address0 ->
  perform (SubmitTask a i u) w = (Success, w1) ->
  i < nextTaskId w
  /\ agent (task_at i w) = address0
  /\ agent (task_at i w1) = a
  /\ submissionUrl (task_at i w1) = u
  /\ isSubmitted (task_at i w1) = true
  /\ forall w2, steps w1 w2 -> forall c u',
       perform (SubmitTask c i u') w2 = (Failure AlreadyClaimed, w2)
       /\ agent (task_at i w2) = a
       /\ submissionUrl (task_at i w2) = u.
Proof.
  intros Ha Hok.
  apply submit_ok in Hok as (Hlt & Hag & _ & Hn' & Htk & _).
  pose proof (task_at_written _ _ _ _ Htk) as Ht1.
  rewrite Ht1. simpl. do 5 (split; [done|]).
  intros w2 Hsteps c u'.
  destruct (steps_evolves w1 w2 i Hsteps) as [Hle Hev]; [lia|].
  rewrite Ht1 in Hev. destruct (ev_agent _ _ Hev) as [Hag2 Hurl2]; [done|].
  simpl in *. split; [|done].
  apply submit_AlreadyClaimed; [lia|congruence].
Qed.

(** C4. When [createTask] succeeds, the new task is stored under the id
    that [getTotalTasks] returned just before the call and carries that id,
    as do the entry appended to the creator's index and the event; right
    after the call [getTotalTasks] returns that value plus one. *)
Theorem createTask_id w a v d w' n :
  staticcall getTotalTasks w = inl n ->
  perform (CreateTask a v d) w = (Success, w') ->
  staticcall getTotalTasks w' = inl (n + 1)
  /\ staticcall (getTask n) w' =
     inl (mkTask n a address0 d v "" false false false)
  /\ employerTasks_at a w' = employerTasks_at a w ++ [n]
  /\ events w' = events w ++ [TaskCreated n a v d].
Proof.
  intros [= <-] Hok.
  apply create_ok in Hok as (_ & _ & _ & Hn' & Htk & Hem & _ & Hev).
  repeat split.
  - unfold staticcall, getTotalTasks. by rewrite Hn'.
  - rewrite getTask_in_range by lia. by rewrite (task_at_written _ _ _ _ Htk).
  - unfold employerTasks_at at 1. by rewrite Hem, lookup_insert_eq.
  - done.
Qed.

(** C5 (amended). [createTask] called with zero value fails with
    [InvalidReward], whatever the description; called with a nonzero value
    and an empty description it fails with [InvalidDescription].  A failing
    [createTask] stores no task record and leaves [getTotalTasks] and the
    caller's index as they were. *)
Theorem createTask_rejects w a v d :
  perform (CreateTask a 0 d) w = (Failure InvalidReward, w)
  /\ (0 < v ->
      perform (CreateTask a v "") w = (Failure InvalidDescription, w))
  /\ (forall e w', perform (CreateTask a v d) w = (Failure e, w') ->
      tasks w' = tasks w
      /\ staticcall getTotalTasks w' = staticcall getTotalTasks w
      /\ staticcall (getEmployerTasks a) w'
         = staticcall (getEmployerTasks a) w).
Proof.
  split; [|split].
  - apply create_InvalidReward.
  - apply create_InvalidDescription.
  - intros e w' H. by apply perform_Failure in H as ->.
Qed.

(** C6. In every world reachable by [createTask], [submitTask] and
    [approveTask] transactions, every task record that [getTask] returns
    satisfies: [isApproved] implies [isSubmitted], and [isCompleted] implies
    [isApproved]. *)
Theorem flags_ordered w i t :
  reachable w ->
  staticcall (getTask i) w = inl t ->
  (isApproved t = true -> isSubmitted t = true)
  /\ (isCompleted t = true -> isApproved t = true).
Proof.
  intros Hinv%reachable_inv [Hlt ->]%getTask_inl.
  destruct (inv_tasks _ Hinv i Hlt) as (t & Hlk & Ht).
  rewrite (task_at_lookup _ _ _ Hlk). split.
  - apply (inv_approved _ _ Ht).
  - by rewrite (inv_completed _ _ Ht).
Qed.

(** C7. In every reachable world, the agent of a created task is unset
    exactly when [isSubmitted] is false; and once the agent is set, it is
    the same after any further transactions. *)
Theorem agent_set_once w i :
  reachable w ->
  i < nextTaskId w ->
  (agent (task_at i w) = address0 <-> isSubmitted (task_at i w) = false)
  /\ (forall w', steps w w' ->
      agent (task_at i w) <> address0 ->
      agent (task_at i w') = agent (task_at i w)).
Proof.
  intros Hinv%reachable_inv Hlt. split.
  - destruct (inv_tasks _ Hinv i Hlt) as (t & Hlk & Ht).
    rewrite (task_at_lookup _ _ _ Hlk). apply (inv_agent _ _ Ht).
  - intros w' Hsteps Hset.
    destruct (steps_evolves w w' i Hsteps Hlt) as [_ Hev].
    by destruct (ev_agent _ _ Hev Hset).
Qed.

(** C8. In every reachable world, [getEmployerTasks(addr)] returns the
    created ids whose task has [addr] as employer, each once, in creation
    order, that is, in strictly increasing order. *)
Theorem getEmployerTasks_exact w addr :
  reachable w ->
  exists l,
    staticcall (getEmployerTasks addr) w = inl l
    /\ l = List.filter (fun i => employer (task_at i w) =? addr)
                       (ids (nextTaskId w))
    /\ (forall i, In i l <->
                  i < nextTaskId w /\ employer (task_at i w) = addr)
    /\ StronglySorted N.lt l.
Proof.
  intros Hinv%reachable_inv. eexists. split; [reflexivity|].
  rewrite (inv_index _ Hinv addr). split; [done|]. split.
  - intros i. rewrite filter_In, in_ids, N.eqb_eq. done.
  - apply filter_sorted, ids_sorted.
Qed.

(** C9. What [getTask] returns for a task changes only by the writes of
    the three functions: a successful [createTask] stores the record as
    given and touches no earlier task; a successful [submitTask] writes
    [agent], [submissionUrl] and [isSubmitted] of its task and nothing
    else (no other member, no other task, neither the total nor an index
    nor a balance); a successful [approveTask] writes [isApproved] and
    [isCompleted] of its task and nothing else in the storage; a failing
    call changes nothing; and over any number of transactions the
    members written at creation are returned unchanged, as are [agent] and
    [submissionUrl] once the agent is set. *)
Theorem fields_round_trip w w' :
  (forall a v d, perform (CreateTask a v d) w = (Success, w') ->
     staticcall (getTask (nextTaskId w)) w' =
     inl (mkTask (nextTaskId w) a address0 d v "" false false false)
     /\ forall j t, staticcall (getTask j) w = inl t ->
                    staticcall (getTask j) w' = inl t)
  /\ (forall a i u, perform (SubmitTask a i u) w = (Success, w') ->
     (exists t t', staticcall (getTask i) w = inl t
        /\ staticcall (getTask i) w' = inl t'
        /\ agent t' = a /\ submissionUrl t' = u /\ isSubmitted t' = true
        /\ id t' = id t /\ employer t' = employer t
        /\ description t' = description t /\ reward t' = reward t
        /\ isApproved t' = isApproved t /\ isCompleted t' = isCompleted t)
     /\ (forall j t, j <> i -> staticcall (getTask j) w = inl t ->
                     staticcall (getTask j) w' = inl t)
     /\ staticcall getTotalTasks w' = staticcall getTotalTasks w
     /\ (forall x, staticcall (getEmployerTasks x) w'
                   = staticcall (getEmployerTasks x) w)
     /\ (forall x, balance x w' = balance x w))
  /\ (forall a i, perform (ApproveTask a i) w = (Success, w') ->
     (exists t t', staticcall (getTask i) w = inl t
        /\ staticcall (getTask i) w' = inl t'
        /\ isApproved t' = true /\ isCompleted t' = true
        /\ id t' = id t /\ employer t' = employer t /\ agent t' = agent t
        /\ description t' = description t /\ reward t' = reward t
        /\ submissionUrl t' = submissionUrl t
        /\ isSubmitted t' = isSubmitted t)
     /\ (forall j t, j <> i -> staticcall (getTask j) w = inl t ->
                     staticcall (getTask j) w' = inl t)
     /\ staticcall getTotalTasks w' = staticcall getTotalTasks w
     /\ (forall x, staticcall (getEmployerTasks x) w'
                   = staticcall (getEmployerTasks x) w))
  /\ (forall op e, perform op w = (Failure e, w') ->
      forall j, staticcall (getTask j) w' = staticcall (getTask j) w)
  /\ (steps w w' ->
      forall j t, staticcall (getTask j) w = inl t ->
      exists t', staticcall (getTask j) w' = inl t'
        /\ id t' = id t /\ employer t' = employer t
        /\ description t' = description t /\ reward t' = reward t
        /\ (agent t <> address0 ->
            agent t' = agent t /\ submissionUrl t' = submissionUrl t)).
Proof.
  split; [|split; [|split; [|split]]].
  - intros a v d Hok.
    apply create_ok in Hok as (_ & _ & _ & Hn' & Htk & _). split.
    + rewrite getTask_in_range by lia. by rewrite (task_at_written _ _ _ _ Htk).
    + intros j t [Hlt ->]%getTask_inl. rewrite getTask_in_range by lia.
      rewrite (task_at_other _ j _ _ _ Htk); [done|lia].
  - intros a i u Hok.
    apply submit_ok in Hok as (Hlt & _ & _ & Hn' & Htk & Hem & Hb & _).
    split; [|split; [|split; [|split]]].
    + exists (task_at i w), (task_at i w').
      rewrite !getTask_in_range by lia.
      rewrite (task_at_written _ _ _ _ Htk). simpl. done.
    + intros j t Hne [Hj ->]%getTask_inl. rewrite getTask_in_range by lia.
      by rewrite (task_at_other _ j _ _ _ Htk).
    + unfold staticcall, getTotalTasks. by rewrite Hn'.
    + intros x. unfold staticcall, getEmployerTasks, employerTasks_at.
      by rewrite Hem.
    + intros x. unfold balance. by rewrite Hb.
  - intros a i Hok.
    apply approve_ok in Hok
      as (Hlt & _ & _ & _ & _ & _ & _ & Hn' & Htk & Hem & _).
    split; [|split; [|split]].
    + exists (task_at i w), (task_at i w').
      rewrite !getTask_in_range by lia.
      rewrite (task_at_written _ _ _ _ Htk). simpl. done.
    + intros j t Hne [Hj ->]%getTask_inl. rewrite getTask_in_range by lia.
      by rewrite (task_at_other _ j _ _ _ Htk).
    + unfold staticcall, getTotalTasks. by rewrite Hn'.
    + intros x. unfold staticcall, getEmployerTasks, employerTasks_at.
      by rewrite Hem.
  - intros op e H j. by apply perform_Failure in H as ->.
  - intros Hsteps j t [Hlt ->]%getTask_inl.
    destruct (steps_evolves w w' j Hsteps Hlt) as [Hle Hev].
    exists (task_at j w'). rewrite getTask_in_range by lia.
    destruct Hev. done.
Qed.

(** C10. [getTask] fails with [TaskNotFound] for an id at or beyond the
    total, whereas the generated getter [tasks(id)] never fails: in every
    reachable world it returns, for such an id, the all-zero record (zero
    numbers, zero addresses, empty strings, false flags), and for a created
    id the members of the record [getTask] returns. *)
Theorem tasks_getter_never_fails w i :
  reachable w ->
  (exists r, staticcall (tasks_getter i) w = inl r)
  /\ (nextTaskId w <= i ->
      staticcall (getTask i) w = inr TaskNotFound
      /\ staticcall (tasks_getter i) w =
         inl (0, address0, address0, "", 0, "", false, false, false))
  /\ (i < nextTaskId w ->
      exists t, staticcall (getTask i) w = inl t
        /\ staticcall (tasks_getter i) w =
           inl (id t, employer t, agent t, description t, reward t,
                submissionUrl t, isSubmitted t, isApproved t, isCompleted t)).
Proof.
  intros Hinv%reachable_inv. split; [|split].
  - eexists. reflexivity.
  - intros Hge. split; [by apply getTask_out_of_range|].
    unfold staticcall, tasks_getter, task_at.
    by rewrite (inv_fresh _ Hinv i Hge).
  - intros Hlt. exists (task_at i w). split; [by apply getTask_in_range|done].
Qed.

End Properties.

(** * Further properties of the contract *)

Section Ledger.

Context {chain : Chain}.

Lemma reachable_step w w' : reachable w -> step w w' -> reachable w'.
Proof. intros [b H] Hs. exists b. eapply rtc_r; eauto. Qed.

Lemma reachable_steps w w' : reachable w -> steps w w' -> reachable w'.
Proof. intros [b H] Hs. exists b. by etrans. Qed.

Lemma reachable_task w i :
  reachable w -> i < nextTaskId w -> task_inv i (task_at i w).
Proof.
  intros Hinv%reachable_inv Hlt.
  destruct (inv_tasks _ Hinv i Hlt) as (t & Hlk & Ht).
  by rewrite (task_at_lookup _ _ _ Hlk).
Qed.

(** X1. In every reachable world the contract holds at least the sum of the
    rewards of the tasks that are not yet approved; in particular it holds
    the reward of each of them. *)
Theorem escrow_covers_open_rewards w :
  reachable w ->
  owed w <= balance this w
  /\ forall i, i < nextTaskId w -> isApproved (task_at i w) = false ->
               reward (task_at i w) <= balance this w.
Proof.
  intros Hsol%reachable_solvent. split; [done|].
  intros i Hlt Happ. unfold solvent, owed in Hsol.
  pose proof (total_ids_ge (owed_at w) (nextTaskId w) i Hlt) as Hge.
  unfold owed_at at 1 in Hge. rewrite Happ in Hge. lia.
Qed.

(** X2. In a reachable world, when a task is submitted and not yet approved
    and its agent accepts the payment, [approveTask] called by the task's
    employer succeeds and the agent's balance grows by the reward: an
    approval never fails for lack of funds. *)
Theorem approval_goes_through w i :
  reachable w -> i < nextTaskId w ->
  isSubmitted (task_at i w) = true -> isApproved (task_at i w) = false ->
  accepts (agent (task_at i w)) = true ->
  exists w',
    perform (ApproveTask (employer (task_at i w)) i) w = (Success, w')
    /\ balance (agent (task_at i w)) w'
       = balance (agent (task_at i w)) w + reward (task_at i w).
Proof.
  intros Hreach Hlt Hsub Happ Hacc.
  destruct (approval_available w i Hreach Hlt Hsub Happ Hacc) as [w' Hok].
  exists w'. split; [done|].
  pose proof (reachable_task w i Hreach Hlt) as Ht.
  apply approve_ok in Hok
    as (_ & _ & _ & _ & Hag & Hle & _ & _ & _ & _ & Hb & _).
  destruct (balance_paid w w' _ _ Hb) as (Hb1 & _); [|done|done].
  by apply (inv_agent_this _ _ Ht).
Qed.

(** X3. A call from an account that lowers the contract's balance is a
    successful [approveTask], and it lowers the balance by exactly the
    reward of the approved task: [createTask] and [submitTask] never pay
    out, and a failed call pays nothing. *)
Theorem payout_only_by_approval op w o w' :
  perform op w = (o, w') -> op_sender op <> this ->
  balance this w' < balance this w ->
  exists a i, op = ApproveTask a i /\ o = Success
    /\ balance this w' + reward (task_at i w) = balance this w.
Proof.
  intros H Hne Hlt.
  destruct (funds_leave_by_approval op w o w' H Hne Hlt) as (a & i & -> & ->).
  exists a, i. do 2 (split; [done|]).
  apply approve_ok in H
    as (_ & _ & _ & _ & _ & Hle & _ & _ & _ & _ & Hb & _).
  destruct (decide (agent (task_at i w) = this)) as [Heq|Hag].
  - exfalso. unfold balance in Hlt at 1. rewrite Hb, Heq in Hlt.
    unfold credit, debit, balance in Hlt. simpl in Hlt.
    rewrite !lookup_insert_eq in Hlt. simpl in Hlt.
    unfold balance in Hle. lia.
  - by destruct (balance_paid w w' _ _ Hb Hag Hle) as (_ & Hb2 & _).
Qed.

(** X4. [submitTask] makes three checks in order and otherwise succeeds: it
    fails with [TaskNotFound] for an id at or beyond the total, else with
    [AlreadyClaimed] when the task has an agent, else with
    [EmptySubmission] for an empty url; in each case the world is
    unchanged.  It succeeds exactly when the id exists, the task has no
    agent and the url is not empty. *)
Theorem submitTask_outcomes w a i u :
  (nextTaskId w <= i ->
   perform (SubmitTask a i u) w = (Failure TaskNotFound, w))
  /\ (i < nextTaskId w -> agent (task_at i w) <> address0 ->
      perform (SubmitTask a i u) w = (Failure AlreadyClaimed, w))
  /\ (i < nextTaskId w -> agent (task_at i w) = address0 -> u = "" ->
      perform (SubmitTask a i u) w = (Failure EmptySubmission, w))
  /\ ((exists w', perform (SubmitTask a i u) w = (Success, w'))
      <-> i < nextTaskId w /\ agent (task_at i w) = address0 /\ u <> "").
Proof.
  split; [|split; [|split; [|split]]].
  - apply submit_TaskNotFound.
  - apply submit_AlreadyClaimed.
  - intros Hlt Hag ->. by apply submit_EmptySubmission.
  - intros [w' Hok]. apply submit_ok in Hok as (H1 & H2 & H3 & _). done.
  - intros (H1 & H2 & H3). by apply submit_succeeds.
Qed.

(** X5. [createTask] succeeds exactly when the value is positive, the
    description is not empty and the counter is below 2^256 - 1.  With
    valid inputs and the counter at 2^256 - 1 the increment overflows and
    the call reverts with a panic, the world (the value sent included)
    unchanged: no id is ever reused. *)
Theorem createTask_outcomes w a v d :
  ((exists w', perform (CreateTask a v d) w = (Success, w'))
   <-> 0 < v /\ d <> "" /\ nextTaskId w < MAX_UINT256)
  /\ (0 < v -> d <> "" -> MAX_UINT256 <= nextTaskId w ->
      perform (CreateTask a v d) w = (Failure Panic, w)).
Proof.
  split; [split|].
  - intros [w' Hok]. apply create_ok in Hok as (H1 & H2 & H3 & _). done.
  - intros (H1 & H2 & H3). by apply create_succeeds.
  - intros E1%N.ltb_lt Hd E2%N.ltb_ge.
    unfold perform, call, createTask, bind, require. simpl. rewrite E1.
    destruct d as [|c d]; [done|]. simpl.
    unfold increment_nextTaskId. simpl.
    unfold pay. destruct (v =? 0); simpl; by rewrite E2.
Qed.

Lemma replay_snoc evs ev :
  replay (evs ++ [ev]) = replay_event (replay evs) ev.
Proof. unfold replay. by rewrite fold_left_app. Qed.

Lemma step_replay w w' :
  step w w' -> replay (events w) = tasks w -> replay (events w') = tasks w'.
Proof.
  intros [op w0 _] Hrep.
  destruct (perform op w0) as [[|e] w1] eqn:E; simpl.
  2:{ by apply perform_Failure in E as ->. }
  destruct op as [a v d|a i u|a i].
  - apply create_ok in E as (_ & _ & _ & _ & Htk & _ & _ & Hev).
    by rewrite Hev, replay_snoc, Hrep, Htk.
  - apply submit_ok in E as (_ & _ & _ & _ & Htk & _ & _ & Hev).
    by rewrite Hev, replay_snoc, Hrep, Htk.
  - apply approve_ok in E
      as (_ & _ & _ & _ & _ & _ & _ & _ & Htk & _ & _ & Hev).
    by rewrite Hev, replay_snoc, Hrep, Htk.
Qed.

(** X7. In every reachable world, replaying the event log from the empty
    mapping rebuilds the [tasks] mapping exactly: the three events carry
    every write the contract makes to a task record. *)
Theorem event_log_replays w :
  reachable w ->
  replay (events w) = tasks w
  /\ forall i, default Task_default (replay (events w) !! i) = task_at i w.
Proof.
  intros [b Hsteps].
  assert (replay (events w) = tasks w) as Hrep.
  { remember (deployed b) as w0 eqn:Hw0.
    assert (replay (events w0) = tasks w0) as H0 by (by subst w0).
    clear Hw0. induction Hsteps as [|w1 w2 w3 H12 _ IH]; [done|].
    apply IH. by eapply step_replay. }
  split; [done|]. intros i. unfold task_at. by rewrite Hrep.
Qed.

(** X8. Nothing is undone: after any number of transactions the total has
    not decreased, a task [getTask] returned is still returned, and each of
    its three flags that was true is still true. *)
Theorem flags_never_reset w w' i t :
  steps w w' ->
  staticcall (getTask i) w = inl t ->
  nextTaskId w <= nextTaskId w'
  /\ exists t', staticcall (getTask i) w' = inl t'
      /\ (isSubmitted t = true -> isSubmitted t' = true)
      /\ (isApproved t = true -> isApproved t' = true)
      /\ (isCompleted t = true -> isCompleted t' = true).
Proof.
  intros Hsteps [Hlt ->]%getTask_inl.
  destruct (steps_evolves w w' i Hsteps Hlt) as [Hle Hev].
  split; [done|]. exists (task_at i w').
  rewrite getTask_in_range by lia. by destruct Hev.
Qed.

(** X9. In every reachable world, a record [getTask(i)] returns carries
    [i] as its id, an employer other than [address(0)], a positive reward
    and a non-empty description; its [isCompleted] equals its
    [isApproved], and its [submissionUrl] is empty exactly when it is not
    submitted. *)
Theorem created_task_well_formed w i t :
  reachable w ->
  staticcall (getTask i) w = inl t ->
  id t = i /\ employer t <> address0 /\ 0 < reward t /\ description t <> ""
  /\ isCompleted t = isApproved t
  /\ (submissionUrl t = "" <-> isSubmitted t = false).
Proof.
  intros Hreach [Hlt ->]%getTask_inl.
  destruct (reachable_task w i Hreach Hlt). tauto.
Qed.

(** X10. Nothing stops an employer from claiming the own task: in a
    reachable world, on a task without agent, the employer's [submitTask]
    (with a non-empty url) and then the employer's [approveTask] both
    succeed when the employer accepts payments, and the reward returns to
    the employer. *)
Theorem employer_can_claim_own_reward w i u :
  reachable w -> i < nextTaskId w ->
  agent (task_at i w) = address0 -> u <> "" ->
  let e := employer (task_at i w) in
  accepts e = true ->
  exists w1 w2,
    perform (SubmitTask e i u) w = (Success, w1)
    /\ perform (ApproveTask e i) w1 = (Success, w2)
    /\ balance e w2 = balance e w + reward (task_at i w).
Proof.
  intros Hreach Hlt Hag Hu e Hacc.
  pose proof (reachable_task w i Hreach Hlt) as Ht.
  destruct (submit_succeeds e i u w Hlt Hag Hu) as [w1 Hs].
  assert (reachable w1) as Hreach1.
  { apply (reachable_step w); [done|].
    replace w1 with (perform (SubmitTask e i u) w).2 by (by rewrite Hs).
    apply step_perform. unfold well_formed. simpl.
    destruct (inv_employer _ _ Ht) as [H0%N.eqb_neq Hthis%N.eqb_neq].
    fold e in H0, Hthis. rewrite H0, Hthis. simpl.
    apply N.leb_le. lia. }
  pose proof Hs as Hs'.
  apply submit_ok in Hs' as (_ & _ & _ & Hn' & Htk & _ & Hb & _).
  pose proof (task_at_written _ _ _ _ Htk) as Ht1.
  assert (Happ : isApproved (task_at i w) = false).
  { destruct (isApproved (task_at i w)) eqn:E; [|done].
    apply (inv_approved _ _ Ht) in E. apply (inv_agent _ _ Ht) in Hag.
    congruence. }
  destruct (approval_available w1 i Hreach1) as (w2 & Hok);
    rewrite ?Ht1; simpl; try done; [lia|].
  rewrite Ht1 in Hok. simpl in Hok.
  exists w1, w2. do 2 (split; [done|]).
  apply approve_ok in Hok
    as (_ & _ & _ & _ & _ & Hle & _ & _ & _ & _ & Hb2 & _).
  rewrite Ht1 in Hle, Hb2. simpl in Hle, Hb2.
  destruct (balance_paid w1 w2 _ _ Hb2) as (Hbal & _);
    [apply (inv_employer _ _ Ht)|done|].
  fold e in Hbal. rewrite Hbal. unfold balance. by rewrite Hb.
Qed.

(** X11. A successful [createTask] escrows the value sent: the contract's
    balance grows by it, the caller's (an account that owns the value)
    shrinks by it, every other balance is unchanged, and the stored reward
    is that value. *)
Theorem createTask_escrows_value w a v d w' :
  a <> this -> v <= balance a w ->
  perform (CreateTask a v d) w = (Success, w') ->
  balance this w' = balance this w + v
  /\ balance a w' + v = balance a w
  /\ (forall x, x <> a -> x <> this -> balance x w' = balance x w)
  /\ reward (task_at (nextTaskId w) w') = v.
Proof.
  intros Hne Hle Hok.
  apply create_ok in Hok as (_ & _ & _ & _ & Htk & _ & Hb & _).
  rewrite (task_at_written _ _ _ _ Htk). simpl.
  unfold balance in *. rewrite Hb. unfold credit, debit, balance. simpl.
  repeat split.
  - by rewrite lookup_insert_eq, lookup_insert_ne.
  - rewrite lookup_insert_ne, lookup_insert_eq by done. simpl. lia.
  - intros x Hx Hx'. by rewrite !lookup_insert_ne.
Qed.

Lemma step_index_grows w w' a :
  step w w' -> employerTasks_at a w `prefix_of` employerTasks_at a w'.
Proof.
  intros [op w0 _].
  destruct (perform op w0) as [[|e] w1] eqn:E; simpl.
  2:{ by apply perform_Failure in E as ->. }
  destruct op as [b v d|b i u|b i].
  - apply create_ok in E as (_ & _ & _ & _ & _ & Hem & _).
    unfold employerTasks_at at 2. rewrite Hem.
    destruct (decide (b = a)) as [->|Hne].
    + rewrite lookup_insert_eq. simpl. by apply prefix_app_r.
    + by rewrite lookup_insert_ne.
  - apply submit_ok in E as (_ & _ & _ & _ & _ & Hem & _).
    unfold employerTasks_at. by rewrite Hem.
  - apply approve_ok in E as (_ & _ & _ & _ & _ & _ & _ & _ & _ & Hem & _).
    unfold employerTasks_at. by rewrite Hem.
Qed.

(** X6. The index of an employer only grows at its end: after any number
    of transactions, the list [getEmployerTasks] returned before is a prefix
    of the list it returns now. *)
Theorem employer_index_append_only w w' a l :
  steps w w' ->
  staticcall (getEmployerTasks a) w = inl l ->
  exists l', staticcall (getEmployerTasks a) w' = inl (l ++ l').
Proof.
  intros Hsteps [= <-].
  assert (employerTasks_at a w `prefix_of` employerTasks_at a w') as [l' Hl'].
  { induction Hsteps as [|w1 w2 w3 H12 _ IH]; [done|].
    etrans; [by apply step_index_grows|done]. }
  exists l'. unfold staticcall, getEmployerTasks. by rewrite Hl'.
Qed.

End Ledger.

(** * Properties of the page *)

Section PageProperties.

Context {chain : Chain}.

Lemma task_of_array_getter i w :
  staticcall (tasks_getter i) w = inl
    (id (task_at i w), employer (task_at i w), agent (task_at i w),
     description (task_at i w), reward (task_at i w),
     submissionUrl (task_at i w), isSubmitted (task_at i w),
     isApproved (task_at i w), isCompleted (task_at i w))
  /\ Page.task_of_array
       (id (task_at i w), employer (task_at i w), agent (task_at i w),
        description (task_at i w), reward (task_at i w),
        submissionUrl (task_at i w), isSubmitted (task_at i w),
        isApproved (task_at i w), isCompleted (task_at i w))
     = task_at i w.
Proof. split; [done|]. by destruct (task_at i w). Qed.

Lemma omap_all {A B} (f : A -> option B) (g : A -> B) (l : list A) :
  (forall x, f x = Some (g x)) -> omap f l = map g l.
Proof.
  intros H. induction l as [|x l IH]; [done|].
  cbn. rewrite H. simpl. by rewrite IH.
Qed.

Lemma fetchAllTasks_Shown now then_ :
  0 < nextTaskId now <= Page.MAX_SAFE ->
  Page.fetchAllTasks now then_ = Page.Shown (fetched now then_).
Proof.
  intros [Hpos Hle]. unfold Page.fetchAllTasks, staticcall at 1, getTotalTasks.
  destruct (nextTaskId now =? 0) eqn:E0; [apply N.eqb_eq in E0; lia|].
  destruct (Page.MAX_SAFE <? nextTaskId now) eqn:E1;
    [apply N.ltb_lt in E1; lia|].
  f_equal. apply omap_all. intros i.
  destruct (task_of_array_getter i (then_ i)) as [-> ->]. done.
Qed.

Lemma fetchAllTasks_Shown_inv now then_ l :
  Page.fetchAllTasks now then_ = Page.Shown l ->
  0 < nextTaskId now <= Page.MAX_SAFE /\ l = fetched now then_.
Proof.
  intros H.
  assert (0 < nextTaskId now <= Page.MAX_SAFE) as Hn.
  { revert H. unfold Page.fetchAllTasks, staticcall at 1, getTotalTasks.
    destruct (nextTaskId now =? 0) eqn:E0; [done|].
    destruct (Page.MAX_SAFE <? nextTaskId now) eqn:E1; [done|].
    apply N.eqb_neq in E0. apply N.ltb_ge in E1. lia. }
  split; [done|]. rewrite (fetchAllTasks_Shown now then_ Hn) in H.
  by injection H.
Qed.


Lemma in_fetched now then_ t :
  In t (fetched now then_) <->
  exists i, i < nextTaskId now /\ t = task_at i (then_ i).
Proof.
  unfold fetched. rewrite in_map_iff. split.
  - intros (i & <- & Hi%in_ids). eauto.
  - intros (i & Hi & ->). exists i. by rewrite in_ids.
Qed.





Lemma open_task_not_completed w i :
  reachable w -> i < nextTaskId w -> agent (task_at i w) = address0 ->
  isSubmitted (task_at i w) = false /\ isApproved (task_at i w) = false
  /\ isCompleted (task_at i w) = false.
Proof.
  intros Hreach Hlt Hag. pose proof (reachable_task w i Hreach Hlt) as Ht.
  apply (inv_agent _ _ Ht) in Hag as Hsub.
  assert (isApproved (task_at i w) = false) as Happ.
  { destruct (isApproved (task_at i w)) eqn:E; [|done].
    apply (inv_approved _ _ Ht) in E. congruence. }
  by rewrite (inv_completed _ _ Ht).
Qed.

(** X14. When the list on the page was fetched from the current world, the
    agent's selector offers exactly the tasks on which a submission would
    succeed: a record is among the options exactly when it is the record of
    a created task on which [submitTask] succeeds for every caller and
    every non-empty url. *)
Theorem selectable_are_open w st t :
  reachable w ->
  Page.fetchAllTasks w (fun _ => w) = Page.Shown (Page.tasks st) ->
  In t (Page.selectable st) <->
  exists i, i < nextTaskId w /\ t = task_at i w
    /\ forall a u, u <> "" ->
         exists w', perform (SubmitTask a i u) w = (Success, w').
Proof.
  intros Hreach [Hn Hl]%fetchAllTasks_Shown_inv.
  unfold Page.selectable. rewrite Hl, filter_In, in_fetched. split.
  - intros [(i & Hi & ->) [Hag%N.eqb_eq _]%andb_true_iff].
    exists i. do 2 (split; [done|]).
    intros a u Hu. by apply submit_succeeds.
  - intros (i & Hi & -> & Hsub).
    destruct (Hsub 0 "x") as [w' Hok]; [done|].
    apply submit_ok in Hok as (_ & Hag & _).
    destruct (open_task_not_completed w i Hreach Hi Hag) as (_ & _ & Hc).
    split; [eauto|]. rewrite Hc, Hag. done.
Qed.

(** X15. [handleSubmitTask] hands the wallet nothing while the url is
    empty.  With a task picked from the selector (the list fetched from the
    current world), a non-empty url and a connected account, the
    transaction it hands over succeeds: the task gets the connected
    account as agent and the typed url, and the form is cleared. *)
Theorem submit_from_selector w st t a :
  reachable w ->
  Page.fetchAllTasks w (fun _ => w) = Page.Shown (Page.tasks st) ->
  In t (Page.selectable st) ->
  Page.selectedTaskId st = Some (id t) ->
  Page.connected st = Some a ->
  (Page.submissionUrl st = "" -> Page.handleSubmitTask st = (None, st))
  /\ (Page.submissionUrl st <> "" ->
      exists op st' w',
        Page.handleSubmitTask st = (Some op, st')
        /\ perform op w = (Success, w')
        /\ agent (task_at (id t) w') = a
        /\ submissionUrl (task_at (id t) w') = Page.submissionUrl st
        /\ Page.selectedTaskId st' = None
        /\ Page.submissionUrl st' = "").
Proof.
  intros Hreach [Hn Hl]%fetchAllTasks_Shown_inv Hin Hsel Hconn.
  unfold Page.handleSubmitTask. rewrite Hsel, Hconn. split.
  - by intros ->.
  - intros Hu.
    destruct (Page.submissionUrl st) as [|c u] eqn:Eu; [done|]. simpl.
    unfold Page.selectable in Hin. rewrite Hl, filter_In, in_fetched in Hin.
    destruct Hin as [(i & Hi & ->) [Hag%N.eqb_eq _]%andb_true_iff].
    rewrite (inv_id _ _ (reachable_task w i Hreach Hi)).
    destruct (submit_succeeds a i (String c u) w Hi Hag) as [w' Hok];
      [done|].
    eexists _, _, w'. split; [reflexivity|]. split; [done|].
    apply submit_ok in Hok as (_ & _ & _ & _ & Htk & _).
    rewrite (task_at_written _ _ _ _ Htk). done.
Qed.

(** X16. When the list on the page was fetched from the current world, the
    approve button tells what [approveTask] would do for the connected
    account: where the button is drawn and the agent accepts payments, the
    transaction [handleApproveTask] hands over succeeds; where it is not
    drawn, [approveTask] by that account fails and changes nothing. *)
Theorem approve_button_exact w st t a :
  reachable w ->
  Page.fetchAllTasks w (fun _ => w) = Page.Shown (Page.tasks st) ->
  In t (Page.tasks st) ->
  Page.connected st = Some a ->
  (Page.approve_button st t = true -> accepts (agent t) = true ->
   exists op w', Page.handleApproveTask st (id t) = Some op
     /\ perform op w = (Success, w'))
  /\ (Page.approve_button st t = false ->
      exists e, perform (ApproveTask a (id t)) w = (Failure e, w)).
Proof.
  intros Hreach [Hn Hl]%fetchAllTasks_Shown_inv Hin Hconn.
  rewrite Hl, in_fetched in Hin. destruct Hin as (i & Hi & ->).
  rewrite (inv_id _ _ (reachable_task w i Hreach Hi)).
  unfold Page.approve_button, Page.handleApproveTask, Page.is_mine.
  rewrite Hconn. split.
  - intros [[Hsub Happ%negb_true_iff]%andb_true_iff Hemp%N.eqb_eq]%andb_true_iff
           Hacc.
    destruct (approval_available w i Hreach Hi Hsub Happ Hacc) as (w' & Hok).
    rewrite Hemp in Hok. eauto.
  - intros Hb.
    destruct (decide (a = employer (task_at i w))) as [Hemp|Hemp].
    2:{ eexists. by apply approve_Unauthorized. }
    destruct (isSubmitted (task_at i w)) eqn:Hsub.
    2:{ eexists. by apply approve_NotSubmitted. }
    destruct (isApproved (task_at i w)) eqn:Happ.
    { eexists. by apply approve_AlreadyApproved. }
    simpl in Hb. apply N.eqb_neq in Hb. congruence.
Qed.

(** X17. For a record [getTask] returns in a reachable world,
    [getTaskStatus] gives one of three labels: the completed one exactly
    when the task is approved, the awaiting-approval one exactly when it is
    submitted and not approved, the open one exactly when it has no agent.
    The labels for "approved, not completed" and "claimed, not submitted"
    are never shown. *)
Theorem status_of_created w i t :
  reachable w ->
  staticcall (getTask i) w = inl t ->
  Page.getTaskStatus t =
    (if isApproved t then "已完成"
     else if isSubmitted t then "待验收" else "开放")
  /\ Page.getTaskStatus t <> "已验收"
  /\ Page.getTaskStatus t <> "进行中"
  /\ (Page.getTaskStatus t = "开放" <-> agent t = address0).
Proof.
  intros Hreach [Hlt ->]%getTask_inl.
  pose proof (reachable_task w i Hreach Hlt) as Ht.
  unfold Page.getTaskStatus. rewrite (inv_completed _ _ Ht).
  pose proof (inv_agent _ _ Ht) as Hag.
  pose proof (inv_approved _ _ Ht) as Happ.
  destruct (isApproved (task_at i w)) eqn:E1.
  { rewrite (Happ eq_refl) in Hag. repeat split; try done.
    intros H0. apply Hag in H0. done. }
  destruct (isSubmitted (task_at i w)) eqn:E2.
  { repeat split; try done. intros H0. apply Hag in H0. done. }
  destruct Hag as [_ Hag]. rewrite (Hag eq_refl). simpl.
  repeat split; done.
Qed.

(** X18. Label and colours agree: two records get the same status label
    exactly when they get the same styles. *)
Theorem styles_follow_status t t' :
  Page.getTaskStatus t = Page.getTaskStatus t'
  <-> Page.getStatusStyles t = Page.getStatusStyles t'.
Proof.
  unfold Page.getTaskStatus, Page.getStatusStyles.
  destruct (isCompleted t), (isApproved t), (isSubmitted t),
    (agent t =? address0), (isCompleted t'), (isApproved t'),
    (isSubmitted t'), (agent t' =? address0); simpl;
    split; intros H; first [reflexivity | discriminate H].
Qed.

End PageProperties.

(** * The scenarios, run

    From here on the chain is [testnet]. *)

#[local] Existing Instance testnet.

Lemma created_reachable : reachable created.
Proof. apply run_reachable. vm_compute. reflexivity. Qed.

Lemma submitted_reachable : reachable submitted.
Proof.
  apply (run_reachable
           [CreateTask 1 100 "X"; SubmitTask 2 0 "http://a"]).
  vm_compute. reflexivity.
Qed.

Lemma approved_reachable : reachable approved.
Proof.
  apply (run_reachable
           [CreateTask 1 100 "X"; SubmitTask 2 0 "http://a"; ApproveTask 1 0]).
  vm_compute. reflexivity.
Qed.

(** The end-to-end run of the specification: the record after approval and
    what the agent received. *)
Example end_to_end :
  staticcall (getTask 0) approved =
    inl (mkTask 0 1 2 "X" 100 "http://a" true true true)
  /\ balance 2 approved = balance 2 submitted + 100
  /\ balance this approved = 0.
Proof. vm_compute. repeat split. Qed.

(** An agent that refuses the payment: the approval fails as a whole. *)
Example transfer_refused :
  perform (chain := picky) (ApproveTask 1 0) submitted
  = (Failure TransferFailed, submitted).
Proof. vm_compute. reflexivity. Qed.

Lemma approveTask_pays_once_witness :
  perform (ApproveTask 1 0) submitted = (Success, approved)
  /\ isApproved (task_at 0 approved) = true
  /\ isCompleted (task_at 0 approved) = true
  /\ balance 2 approved = balance 2 submitted + 100
  /\ balance this approved + 100 = balance this submitted
  /\ perform (ApproveTask 1 0) approved
     = (Failure AlreadyApproved, approved).
Proof.
  assert (Hs : perform (ApproveTask 1 0) submitted
               = (Success, approved)) by (vm_compute; reflexivity).
  destruct (approveTask_pays_once submitted 1 0
              submitted_reachable) as [H _].
  destruct (H approved Hs) as (_ & _ & _ & Ha & Hc & Hb & Hl & _ & Hagain).
  exact (conj Hs (conj Ha (conj Hc (conj Hb (conj Hl
           (Hagain approved 1 (rtc_refl _ _))))))).
Defined.

(** After the approval a call by anyone but the employer fails with
    [Unauthorized], not [AlreadyApproved]; and on a task nobody submitted
    to, the employer's call fails with [NotSubmitted], not [NoAgent]. *)
Lemma approveTask_errors_counterexample :
  perform (ApproveTask 1 0) submitted = (Success, approved)
  /\ perform (ApproveTask 2 0) approved
     = (Failure Unauthorized, approved)
  /\ perform (ApproveTask 2 0) approved
     <> (Failure AlreadyApproved, approved)
  /\ agent (task_at 0 created) = address0
  /\ perform (ApproveTask 1 0) created
     = (Failure NotSubmitted, created)
  /\ perform (ApproveTask 1 0) created
     <> (Failure NoAgent, created).
Proof.
  assert (H2 : perform (ApproveTask 2 0) approved
               = (Failure Unauthorized, approved)) by (vm_compute; reflexivity).
  assert (H5 : perform (ApproveTask 1 0) created
               = (Failure NotSubmitted, created)) by (vm_compute; reflexivity).
  split; [vm_compute; reflexivity|].
  split; [exact H2|].
  split; [rewrite H2; intros [=]|].
  split; [vm_compute; reflexivity|].
  split; [exact H5|].
  rewrite H5. intros [=].
Qed.

Lemma approveTask_errors_witness :
  perform (ApproveTask 1 5) approved
  = (Failure TaskNotFound, approved)
  /\ perform (ApproveTask 2 0) approved
     = (Failure Unauthorized, approved)
  /\ perform (ApproveTask 1 0) created
     = (Failure NotSubmitted, created)
  /\ perform (ApproveTask 1 0) approved
     = (Failure AlreadyApproved, approved)
  /\ perform (ApproveTask 1 0) orphan
     = (Failure NoAgent, orphan).
Proof.
  destruct (approveTask_errors approved 1 5) as (H1 & _).
  destruct (approveTask_errors approved 2 0) as (_ & H2 & _).
  destruct (approveTask_errors created 1 0)
    as (_ & _ & H3 & _).
  destruct (approveTask_errors approved 1 0)
    as (_ & _ & _ & H4 & _).
  destruct (approveTask_errors orphan 1 0)
    as (_ & _ & _ & _ & H5 & _).
  split; [apply H1; vm_compute; discriminate|].
  split; [apply H2; vm_compute; [reflexivity|discriminate]|].
  split; [apply H3; vm_compute; reflexivity|].
  split; [apply H4; vm_compute; reflexivity|].
  apply H5; vm_compute; reflexivity.
Defined.

Lemma submitted_later : steps submitted later.
Proof. apply run_steps. vm_compute. reflexivity. Qed.

Lemma submitTask_first_wins_witness :
  perform (SubmitTask 2 0 "http://a") created
  = (Success, submitted)
  /\ agent (task_at 0 submitted) = 2
  /\ submissionUrl (task_at 0 submitted) = "http://a"
  /\ isSubmitted (task_at 0 submitted) = true
  /\ perform (SubmitTask 3 0 "http://b") later
     = (Failure AlreadyClaimed, later)
  /\ agent (task_at 0 later) = 2
  /\ submissionUrl (task_at 0 later) = "http://a".
Proof.
  assert (Hs : perform (SubmitTask 2 0 "http://a") created
               = (Success, submitted)) by (vm_compute; reflexivity).
  assert (Ha : 2 <> address0) by discriminate.
  destruct (submitTask_first_wins created 2 0 "http://a"
              submitted Ha Hs) as (_ & _ & H1 & H2 & H3 & H4).
  destruct (H4 later submitted_later 3 "http://b") as (H5 & H6 & H7).
  exact (conj Hs (conj H1 (conj H2 (conj H3 (conj H5 (conj H6 H7)))))).
Defined.

Lemma createTask_id_witness :
  staticcall getTotalTasks submitted = inl 1
  /\ perform (CreateTask 3 5 "Y") submitted
     = (Success, created_again)
  /\ staticcall getTotalTasks created_again = inl 2
  /\ staticcall (getTask 1) created_again
     = inl (mkTask 1 3 address0 "Y" 5 "" false false false).
Proof.
  assert (Hn : staticcall getTotalTasks submitted = inl 1)
    by (vm_compute; reflexivity).
  assert (Hs : perform (CreateTask 3 5 "Y") submitted
               = (Success, created_again)) by (vm_compute; reflexivity).
  destruct (createTask_id submitted 3 5 "Y" created_again 1
              Hn Hs) as (H1 & H2 & _).
  exact (conj Hn (conj Hs (conj H1 H2))).
Defined.

(** With zero value and an empty description the first check answers. *)
Lemma createTask_rejects_counterexample :
  perform (CreateTask 1 0 "") genesis
  = (Failure InvalidReward, genesis)
  /\ perform (CreateTask 1 0 "") genesis
     <> (Failure InvalidDescription, genesis).
Proof.
  assert (H : perform (CreateTask 1 0 "") genesis
              = (Failure InvalidReward, genesis)) by (vm_compute; reflexivity).
  split; [exact H|]. rewrite H. intros [=].
Qed.

Lemma createTask_rejects_witness :
  perform (CreateTask 1 0 "X") genesis
  = (Failure InvalidReward, genesis)
  /\ perform (CreateTask 1 5 "") genesis
     = (Failure InvalidDescription, genesis).
Proof.
  destruct (createTask_rejects genesis 1 5 "X")
    as (H1 & H2 & _).
  split; [exact H1|]. apply H2. vm_compute. reflexivity.
Defined.

Lemma flags_ordered_witness :
  exists t, staticcall (getTask 0) approved = inl t
    /\ isCompleted t = true /\ isApproved t = true /\ isSubmitted t = true.
Proof.
  exists (mkTask 0 1 2 "X" 100 "http://a" true true true).
  assert (Hg : staticcall (getTask 0) approved
               = inl (mkTask 0 1 2 "X" 100 "http://a" true true true))
    by (vm_compute; reflexivity).
  destruct (flags_ordered approved 0 _ approved_reachable Hg) as [H1 H2].
  assert (Hc : isCompleted (mkTask 0 1 2 "X" 100 "http://a" true true true)
               = true) by reflexivity.
  exact (conj Hg (conj Hc (conj (H2 Hc) (H1 (H2 Hc))))).
Defined.

Lemma agent_set_once_witness :
  (agent (task_at 0 submitted) = address0
   <-> isSubmitted (task_at 0 submitted) = false)
  /\ agent (task_at 0 later) = agent (task_at 0 submitted).
Proof.
  assert (Hlt : 0 < nextTaskId submitted) by (vm_compute; reflexivity).
  assert (Hset : agent (task_at 0 submitted) <> address0)
    by (vm_compute; discriminate).
  destruct (agent_set_once submitted 0
              submitted_reachable Hlt) as [H1 H2].
  exact (conj H1 (H2 later submitted_later Hset)).
Defined.

Lemma busy_reachable : reachable busy.
Proof. apply run_reachable. vm_compute. reflexivity. Qed.

Lemma getEmployerTasks_exact_witness :
  staticcall (getEmployerTasks 1) busy = inl [0; 2]
  /\ staticcall (getEmployerTasks 3) busy = inl [1]
  /\ staticcall (getEmployerTasks 2) busy = inl [].
Proof.
  destruct (getEmployerTasks_exact busy 1 busy_reachable)
    as (l1 & Hl1 & He1 & _).
  destruct (getEmployerTasks_exact busy 3 busy_reachable)
    as (l3 & Hl3 & He3 & _).
  destruct (getEmployerTasks_exact busy 2 busy_reachable)
    as (l2 & Hl2 & He2 & _).
  split; [|split].
  - exact (eq_trans Hl1 (f_equal inl He1)).
  - exact (eq_trans Hl3 (f_equal inl He3)).
  - exact (eq_trans Hl2 (f_equal inl He2)).
Defined.

Lemma fields_round_trip_witness :
  exists t', staticcall (getTask 0) later = inl t'
    /\ id t' = 0 /\ employer t' = 1 /\ description t' = "X"
    /\ reward t' = 100
    /\ (2 <> address0 -> agent t' = 2 /\ submissionUrl t' = "http://a").
Proof.
  assert (Hg : staticcall (getTask 0) submitted
               = inl (mkTask 0 1 2 "X" 100 "http://a" true false false))
    by (vm_compute; reflexivity).
  destruct (fields_round_trip submitted later)
    as (_ & _ & _ & _ & H).
  exact (H submitted_later 0 _ Hg).
Defined.

Lemma tasks_getter_never_fails_witness :
  staticcall (getTask 7) approved = inr TaskNotFound
  /\ staticcall (tasks_getter 7) approved
     = inl (0, address0, address0, "", 0, "", false, false, false).
Proof.
  assert (Hge : nextTaskId approved <= 7) by (vm_compute; discriminate).
  destruct (tasks_getter_never_fails approved 7
              approved_reachable) as (_ & H & _).
  exact (H Hge).
Defined.

(** ** Further scenarios *)

Lemma later_reachable : reachable later.
Proof. exact (reachable_steps _ _ submitted_reachable submitted_later). Qed.

Lemma escrow_covers_open_rewards_witness :
  owed submitted = 100 /\ balance this submitted = 100
  /\ owed submitted <= balance this submitted.
Proof.
  destruct (escrow_covers_open_rewards submitted submitted_reachable)
    as [H _].
  split; [vm_compute; reflexivity|]. split; [vm_compute; reflexivity|].
  exact H.
Defined.

Lemma approval_goes_through_witness :
  exists w', perform (ApproveTask 1 0) submitted = (Success, w')
    /\ balance 2 w' = balance 2 submitted + 100.
Proof.
  assert (H1 : 0 < nextTaskId submitted) by (vm_compute; reflexivity).
  assert (H2 : isSubmitted (task_at 0 submitted) = true)
    by (vm_compute; reflexivity).
  assert (H3 : isApproved (task_at 0 submitted) = false)
    by (vm_compute; reflexivity).
  assert (H4 : accepts (agent (task_at 0 submitted)) = true)
    by (vm_compute; reflexivity).
  exact (approval_goes_through submitted 0 submitted_reachable H1 H2 H3 H4).
Defined.

Lemma payout_only_by_approval_witness :
  exists a i, ApproveTask 1 0 = ApproveTask a i /\ Success = Success
    /\ balance this approved + reward (task_at i submitted)
       = balance this submitted.
Proof.
  assert (H1 : perform (ApproveTask 1 0) submitted = (Success, approved))
    by (vm_compute; reflexivity).
  assert (H2 : op_sender (ApproveTask 1 0) <> this)
    by (vm_compute; discriminate).
  assert (H3 : balance this approved < balance this submitted)
    by (vm_compute; reflexivity).
  exact (payout_only_by_approval _ _ _ _ H1 H2 H3).
Defined.

Lemma submitTask_outcomes_witness :
  perform (SubmitTask 2 9 "http://a") created = (Failure TaskNotFound, created)
  /\ perform (SubmitTask 3 0 "http://b") submitted
     = (Failure AlreadyClaimed, submitted)
  /\ perform (SubmitTask 2 0 "") created = (Failure EmptySubmission, created)
  /\ exists w', perform (SubmitTask 2 0 "http://a") created = (Success, w').
Proof.
  destruct (submitTask_outcomes created 2 9 "http://a") as (H1 & _).
  destruct (submitTask_outcomes submitted 3 0 "http://b") as (_ & H2 & _).
  destruct (submitTask_outcomes created 2 0 "") as (_ & _ & H3 & _).
  destruct (submitTask_outcomes created 2 0 "http://a") as (_ & _ & _ & H4).
  split; [apply H1; vm_compute; discriminate|].
  split; [apply H2; vm_compute; [reflexivity|discriminate]|].
  split; [apply H3; vm_compute; reflexivity|].
  apply H4. vm_compute. repeat split. discriminate.
Defined.

Lemma createTask_outcomes_witness :
  perform (CreateTask 1 100 "X") full = (Failure Panic, full)
  /\ exists w', perform (CreateTask 1 100 "X") genesis = (Success, w').
Proof.
  destruct (createTask_outcomes full 1 100 "X") as [_ H1].
  destruct (createTask_outcomes genesis 1 100 "X") as [H2 _].
  split.
  - apply H1; vm_compute; [reflexivity|discriminate|discriminate].
  - apply H2. vm_compute. repeat split. discriminate.
Defined.

Lemma event_log_replays_witness :
  replay (events approved) = tasks approved
  /\ default Task_default (replay (events approved) !! 0)
     = mkTask 0 1 2 "X" 100 "http://a" true true true.
Proof.
  destruct (event_log_replays approved approved_reachable) as [H1 H2].
  split; [exact H1|]. exact (H2 0).
Defined.

Lemma flags_never_reset_witness :
  nextTaskId submitted <= nextTaskId later
  /\ exists t', staticcall (getTask 0) later = inl t'
      /\ isSubmitted t' = true.
Proof.
  assert (Hg : staticcall (getTask 0) submitted
               = inl (mkTask 0 1 2 "X" 100 "http://a" true false false))
    by (vm_compute; reflexivity).
  destruct (flags_never_reset submitted later 0 _ submitted_later Hg)
    as (Hle & t' & Hg' & Hs & _).
  split; [exact Hle|]. exists t'. split; [exact Hg'|].
  apply Hs. reflexivity.
Defined.

Lemma created_task_well_formed_witness :
  exists t, staticcall (getTask 0) approved = inl t
    /\ id t = 0 /\ employer t <> address0 /\ 0 < reward t
    /\ description t <> "" /\ isCompleted t = isApproved t.
Proof.
  exists (mkTask 0 1 2 "X" 100 "http://a" true true true).
  assert (Hg : staticcall (getTask 0) approved
               = inl (mkTask 0 1 2 "X" 100 "http://a" true true true))
    by (vm_compute; reflexivity).
  destruct (created_task_well_formed approved 0 _ approved_reachable Hg)
    as (H1 & H2 & H3 & H4 & H5 & _).
  exact (conj Hg (conj H1 (conj H2 (conj H3 (conj H4 H5))))).
Defined.

Lemma employer_can_claim_own_reward_witness :
  exists w1 w2,
    perform (SubmitTask 1 0 "mine") created = (Success, w1)
    /\ perform (ApproveTask 1 0) w1 = (Success, w2)
    /\ balance 1 w2 = balance 1 created + 100.
Proof.
  assert (H1 : 0 < nextTaskId created) by (vm_compute; reflexivity).
  assert (H2 : agent (task_at 0 created) = address0)
    by (vm_compute; reflexivity).
  assert (H3 : "mine" <> "") by discriminate.
  assert (H4 : accepts (employer (task_at 0 created)) = true)
    by (vm_compute; reflexivity).
  exact (employer_can_claim_own_reward created 0 "mine" created_reachable
           H1 H2 H3 H4).
Defined.

Lemma createTask_escrows_value_witness :
  balance this created = balance this genesis + 100
  /\ balance 1 created + 100 = balance 1 genesis
  /\ balance 2 created = balance 2 genesis
  /\ reward (task_at 0 created) = 100.
Proof.
  assert (H1 : 1 <> this) by (vm_compute; discriminate).
  assert (H2 : 100 <= balance 1 genesis) by (vm_compute; discriminate).
  assert (H3 : perform (CreateTask 1 100 "X") genesis = (Success, created))
    by (vm_compute; reflexivity).
  destruct (createTask_escrows_value genesis 1 100 "X" created H1 H2 H3)
    as (Ha & Hb & Hc & Hd).
  assert (H4 : 2 <> 1) by discriminate.
  assert (H5 : 2 <> this) by (vm_compute; discriminate).
  exact (conj Ha (conj Hb (conj (Hc 2 H4 H5) Hd))).
Defined.



Lemma selectable_are_open_witness :
  exists i, i < nextTaskId later /\ task_at 1 later = task_at i later
    /\ forall a u, u <> "" ->
         exists w', perform (SubmitTask a i u) later = (Success, w').
Proof.
  assert (Hf : Page.fetchAllTasks later (fun _ => later)
               = Page.Shown (Page.tasks agent_page))
    by (vm_compute; reflexivity).
  assert (Hin : In (task_at 1 later) (Page.selectable agent_page))
    by (vm_compute; left; reflexivity).
  destruct (selectable_are_open later agent_page (task_at 1 later)
              later_reachable Hf) as [H _].
  exact (H Hin).
Defined.

Lemma submit_from_selector_witness :
  exists op st' w',
    Page.handleSubmitTask agent_page = (Some op, st')
    /\ perform op later = (Success, w')
    /\ agent (task_at 1 w') = 2
    /\ submissionUrl (task_at 1 w') = "http://b"
    /\ Page.selectedTaskId st' = None
    /\ Page.submissionUrl st' = "".
Proof.
  assert (Hf : Page.fetchAllTasks later (fun _ => later)
               = Page.Shown (Page.tasks agent_page))
    by (vm_compute; reflexivity).
  assert (Hin : In (task_at 1 later) (Page.selectable agent_page))
    by (vm_compute; left; reflexivity).
  assert (Hsel : Page.selectedTaskId agent_page = Some (id (task_at 1 later)))
    by (vm_compute; reflexivity).
  assert (Hc : Page.connected agent_page = Some 2) by reflexivity.
  assert (Hu : Page.submissionUrl agent_page <> "") by discriminate.
  destruct (submit_from_selector later agent_page (task_at 1 later) 2
              later_reachable Hf Hin Hsel Hc) as [_ H].
  exact (H Hu).
Defined.

Lemma approve_button_exact_witness :
  (exists op w', Page.handleApproveTask employer_page 0 = Some op
     /\ perform op submitted = (Success, w'))
  /\ Page.approve_button employer_page (task_at 0 submitted) = true.
Proof.
  assert (Hf : Page.fetchAllTasks submitted (fun _ => submitted)
               = Page.Shown (Page.tasks employer_page))
    by (vm_compute; reflexivity).
  assert (Hin : In (task_at 0 submitted) (Page.tasks employer_page))
    by (vm_compute; left; reflexivity).
  assert (Hc : Page.connected employer_page = Some 1) by reflexivity.
  assert (Hb : Page.approve_button employer_page (task_at 0 submitted) = true)
    by (vm_compute; reflexivity).
  assert (Ha : accepts (agent (task_at 0 submitted)) = true)
    by (vm_compute; reflexivity).
  destruct (approve_button_exact submitted employer_page
              (task_at 0 submitted) 1 submitted_reachable Hf Hin Hc)
    as [H _].
  exact (conj (H Hb Ha) Hb).
Defined.

Lemma status_of_created_witness :
  exists t, staticcall (getTask 0) submitted = inl t
    /\ Page.getTaskStatus t = "待验收".
Proof.
  exists (mkTask 0 1 2 "X" 100 "http://a" true false false).
  assert (Hg : staticcall (getTask 0) submitted
               = inl (mkTask 0 1 2 "X" 100 "http://a" true false false))
    by (vm_compute; reflexivity).
  destruct (status_of_created submitted 0 _ submitted_reachable Hg)
    as (H & _).
  exact (conj Hg H).
Defined.

Lemma employer_index_append_only_witness :
  exists l', staticcall (getEmployerTasks 1) busy = inl ([0] ++ l').
Proof.
  assert (Hs : steps created
                 (run [CreateTask 3 5 "Y"; CreateTask 1 20 "Z"] created))
    by (apply run_steps; vm_compute; reflexivity).
  assert (He : run [CreateTask 3 5 "Y"; CreateTask 1 20 "Z"] created = busy)
    by (vm_compute; reflexivity).
  rewrite He in Hs.
  assert (Hg : staticcall (getEmployerTasks 1) created = inl [0])
    by (vm_compute; reflexivity).
  exact (employer_index_append_only created busy 1 [0] Hs Hg).
Defined.
